(** * Proof-of-Carbon-Reduction consensus layer: rank, reward, fees, registry

    A shallow embedding of [consensus/cliquepocr/cliquepocr.go] and
    [consensus/cliquepocr/RaceRankComputation.go].

    - [*big.Int] values are modelled as [Z].
    - [*big.Rat] values are modelled as [Q]; Go keeps every [big.Rat] in
      lowest terms with a positive denominator, which is written out here
      with [Qred] after each operation.
    - Go errors are the constructors of [error]; a function returning
      [(value, error)] returns a [result]. *)

From Stdlib Require Import String ZArith QArith Qround Qpower Qminmax Lia Lqa Bool List.
From Stdlib Require Import Permutation.
Import ListNotations.

Open Scope Z_scope.

(** ** math/big integers *)

Module BigInt.

(** [x.Sign()] : -1, 0 or +1. *)
Definition Sign (x : Z) : Z := Z.sgn x.

(** [x.Cmp(y)] : -1, 0 or +1. *)
Definition Cmp (x y : Z) : Z :=
  match x ?= y with
  | Lt => -1
  | Eq => 0
  | Gt => 1
  end.

(** [z.Div(x, y)] is Euclidean division: the remainder is never
    negative.  Go panics on [y = 0]; every divisor met in this
    development is a positive constant or a denominator. *)
Definition Div (x y : Z) : Z :=
  if 0 <? y then x / y else - (x / (- y)).

Definition Abs (x : Z) : Z := Z.abs x.
Definition Neg (x : Z) : Z := - x.

End BigInt.

(** ** math/big rationals *)

Module BigRat.

Definition Rat := Q.

(** [big.NewRat(a, b)] and [z.SetFrac(a, b)]: the fraction a/b in lowest
    terms (Go panics on [b = 0]). *)
Definition NewRat (a b : Z) : Rat := Qred (inject_Z a / inject_Z b).
Definition SetFrac (a b : Z) : Rat := Qred (inject_Z a / inject_Z b).

(** [z.SetInt(x)] : x/1. *)
Definition SetInt (x : Z) : Rat := inject_Z x.

Definition Mul (x y : Rat) : Rat := Qred (x * y).
Definition Add (x y : Rat) : Rat := Qred (x + y).
Definition Sub (x y : Rat) : Rat := Qred (x - y).

(** [z.Inv(x)] : 1/x (Go panics on [x = 0]). *)
Definition Inv (x : Rat) : Rat := Qred (/ x).

Definition Cmp (x y : Rat) : Z :=
  match (x ?= y)%Q with
  | Lt => -1
  | Eq => 0
  | Gt => 1
  end.

(** [x.Num()] and [x.Denom()]; the denominator is always positive. *)
Definition Num (x : Rat) : Z := Qnum x.
Definition Denom (x : Rat) : Z := Zpos (Qden x).

End BigRat.

(** ** Errors and results *)

Inductive error : Type :=
| ErrZeroOrNegativeFootprint  (* "cannot proceed with zero or negative footprint" *)
| ErrRankZeroNode             (* "cannot rank zero node" *)
| ErrNegativeTotalCrypto      (* "negative total crypto amount is not possible" *)
| ErrNoSealerFootprint        (* "sealer does not have a footprint" *)
| ErrSnapshot                 (* failure of the engine's snapshot lookup *)
| ErrAuthor                   (* the sealer of the header cannot be recovered *)
| ErrContractCall.            (* a read of the footprint contract failed *)

Inductive result (A : Type) : Type :=
| Ok (a : A)
| Err (e : error).
Arguments Ok {A} a.
Arguments Err {A} e.

(** ** Protocol constants (cliquepocr.go) *)

Definition zero : Z := 0.
Definition CTCUnit : Z := 10 ^ 18.
Definition MinBlockBetweenAudit : Z := (3600 / 4) * 24 * 365.
Definition PenaltyOnOldFootprint : Z := 5.

(** ** Footprint penalty *)

(** result = footprint x (100 + penalty x nb) / 100, the integer division
    happening last. *)
Definition calcCarbonFootprintAuditIncentive
    (footprint lastBlock currentBlock : Z) : Z :=
  let delta := currentBlock - lastBlock in
  if (BigInt.Sign delta <=? 0) || (BigInt.Sign footprint <=? 0) then footprint
  else
    let factor := BigInt.Div delta MinBlockBetweenAudit in
    let factor := factor * PenaltyOnOldFootprint in
    let factor := factor + 100 in
    let newFootprint := footprint * factor in
    BigInt.Div newFootprint 100.

(** ** Transaction fees *)

(** The two fee fields this fork adds to a transaction. *)
Record Transaction : Type := mkTx {
  FeeTransferred : Z;
  FeeBurnt : Z
}.

Definition calcCarbonFootprintTxFee
    (rank : BigRat.Rat) (txs : list Transaction) : Z * Z :=
  let '(received, burnt) :=
    fold_left
      (fun acc tx => (fst acc + FeeTransferred tx, snd acc + FeeBurnt tx))
      txs (0, 0) in
  let expected := BigRat.SetInt received in
  let expected := BigRat.Mul expected rank in
  let adjustment := BigRat.Sub expected (BigRat.SetInt received) in
  (BigInt.Div (BigRat.Num adjustment) (BigRat.Denom adjustment), burnt).

(** Sums of the fee fields, written as the specification reads. *)
Definition feesTransferred (txs : list Transaction) : Z :=
  fold_right Z.add 0 (map FeeTransferred txs).
Definition feesBurnt (txs : list Transaction) : Z :=
  fold_right Z.add 0 (map FeeBurnt txs).

(** ** Rank table and ranking (RaceRankComputation.go) *)

(** The standard white-paper computation: its only state is the memoised
    table of ranks. *)
Record RaceRankComputation : Type := mkRace {
  rankArray : list BigRat.Rat
}.

Definition NewRaceRankComputation : RaceRankComputation :=
  mkRace [BigRat.NewRat 1 1].

(** The body of the loop of [getRanking], run [n] times: multiply the
    previous entry by 0,9 and append it. *)
Fixpoint extendRanking (n : nat) (previous : BigRat.Rat)
    (arr : list BigRat.Rat) : list BigRat.Rat :=
  match n with
  | O => arr
  | S n' =>
      let previous := BigRat.Mul previous (BigRat.NewRat 9 10) in
      extendRanking n' previous (arr ++ [previous])
  end.

(** [None] stands for Go's index-out-of-range panic.  The loop
    [for i := len(rankArray); i <= rank; i++] runs [rank + 1 - len] times
    (no time when the table is long enough). *)
Definition getRanking (wp : RaceRankComputation) (rank : nat)
    : option (BigRat.Rat * RaceRankComputation) :=
  match nth_error (rankArray wp) (length (rankArray wp) - 1) with
  | None => None
  | Some previous =>
      let arr :=
        extendRanking (rank + 1 - length (rankArray wp)) previous
                      (rankArray wp) in
      match nth_error arr rank with
      | None => None
      | Some r => Some (r, mkRace arr)
      end
  end.

(** The counting loop of [CalculateRanking]: peers whose footprint is lower
    than the node's but not zero. *)
Definition countItemsAbove (footprint : Z) (nodesFootprint : list Z) : nat :=
  fold_left
    (fun NbItemsAbove f =>
       if (BigInt.Cmp f footprint =? -1) && (BigInt.Cmp f zero >? 0)
       then S NbItemsAbove else NbItemsAbove)
    nodesFootprint O.

Definition CalculateRanking (wp : RaceRankComputation)
    (footprint : Z) (nodesFootprint : list Z)
    : option (result (BigRat.Rat * nat) * RaceRankComputation) :=
  if BigInt.Cmp footprint zero <=? 0 then
    Some (Err ErrZeroOrNegativeFootprint, wp)
  else
    let nbNodes := length nodesFootprint in
    if Nat.eqb nbNodes 0 then Some (Err ErrRankZeroNode, wp)
    else
      let NbItemsAbove := countItemsAbove footprint nodesFootprint in
      match getRanking wp NbItemsAbove with
      | None => None
      | Some (rank, wp') => Some (Ok (rank, nbNodes), wp')
      end.

(** ** Inflation control and reward *)

Definition inflationDenominator : Z := 10000000.

(** Minimum creation per block: 10^5 per year. *)
Definition minCreationPerBlock : BigRat.Rat :=
  BigRat.Mul (BigRat.NewRat 100000 (365 * 24 * 3600 / 4))
             (BigRat.SetInt CTCUnit).

Definition CalculateGlobalInflationControlFactor (M : Z)
    : result BigRat.Rat :=
  if BigInt.Sign M =? -1 then Err ErrNegativeTotalCrypto
  else if BigInt.Cmp M zero =? 0 then Ok (BigRat.NewRat 1 1)
  else
    let L := BigRat.SetFrac M (CTCUnit * inflationDenominator) in
    let L := BigRat.Mul L (BigRat.NewRat 72 100) in
    let D := BigRat.NewRat 1 1 in
    let D := BigRat.Add D L in
    let L2 := BigRat.Mul L L in
    let D := BigRat.Add D (BigRat.Mul L2 (BigRat.NewRat 1 2)) in
    let L2 := BigRat.Mul L2 L in
    let D := BigRat.Add D (BigRat.Mul L2 (BigRat.NewRat 1 6)) in
    let L2 := BigRat.Mul L2 L in
    let D := BigRat.Add D (BigRat.Mul L2 (BigRat.NewRat 1 24)) in
    Ok (BigRat.Inv D).

(** [nbNodes] is a Go [int], converted with [int64(nbNodes)]. *)
Definition CalculateCarbonFootprintReward
    (rank : BigRat.Rat) (nbNodes : Z) (totalCryptoAmount : Z) : result Z :=
  let rewardCRCUnit := BigRat.Mul rank (BigRat.SetInt CTCUnit) in
  let rewardCRCUnit := BigRat.Mul rewardCRCUnit (BigRat.NewRat nbNodes 1) in
  match CalculateGlobalInflationControlFactor totalCryptoAmount with
  | Err e => Err e
  | Ok inflationFactor =>
      let rewardCRCUnit := BigRat.Mul rewardCRCUnit inflationFactor in
      let rewardCRCUnit :=
        if BigRat.Cmp rewardCRCUnit minCreationPerBlock =? -1
        then minCreationPerBlock else rewardCRCUnit in
      Ok (BigInt.Div (BigRat.Num rewardCRCUnit) (BigRat.Denom rewardCRCUnit))
  end.

(** The power series and the rank table as the specification writes them. *)
Definition inflationExponent (M : Z) : Q :=
  (inject_Z M / inject_Z (CTCUnit * inflationDenominator)) * (72 # 100).

Definition truncatedSeries (L : Q) : Q :=
  1 + L + L ^ 2 / 2 + L ^ 3 / 6 + L ^ 4 / 24.

Definition rankTable (k : nat) : Q := (9 # 10) ^ Z.of_nat k.

(** ** Chain state seen by the post-processing *)

(** A 20-byte account address, as the number it encodes. *)
Definition address : Type := N.
Definition zeroAddress : address := 0%N.

(** Modelled from the spec: the mirrored sealer registry of the governance
    contract (its accessors [getNbNodes], [getSealerAt], [getIsSealerOf]
    and their setters live in a file that is not part of the sources at
    hand).  The specification describes an index-addressable array of
    addresses, an enabled flag per address and a count; contract storage is
    total, an untouched slot reading as zero. *)
Record Registry : Type := mkRegistry {
  nbNodes : nat;                  (* uint64 in the source *)
  sealerAt : nat -> address;
  isSealerOf : address -> bool
}.

(** One storage write of the registry. *)
Inductive RegistryWrite : Type :=
| WriteSealerAt (i : nat) (a : address)
| WriteIsSealerOf (a : address) (enabled : bool)
| WriteNbNodes (n : nat).

(** The contract handle used by [synchronizeSealers]: the registry and the
    writes issued so far, oldest first. *)
Definition Contract : Type := (Registry * list RegistryWrite)%type.

Definition setSealerAt (i : nat) (a : address) (c : Contract) : Contract :=
  let '(r, w) := c in
  (mkRegistry (nbNodes r)
              (fun j => if Nat.eqb j i then a else sealerAt r j)
              (isSealerOf r),
   w ++ [WriteSealerAt i a]).

Definition setIsSealerOf (a : address) (e : bool) (c : Contract) : Contract :=
  let '(r, w) := c in
  (mkRegistry (nbNodes r)
              (sealerAt r)
              (fun b => if N.eqb b a then e else isSealerOf r b),
   w ++ [WriteIsSealerOf a e]).

Definition setNbNodes (n : nat) (c : Contract) : Contract :=
  let '(r, w) := c in
  (mkRegistry n (sealerAt r) (isSealerOf r), w ++ [WriteNbNodes n]).

Definition contains (array : list address) (value : address) : bool :=
  existsb (fun v => N.eqb v value) array.

(** First loop of [synchronizeSealers]: drop the sealers that left. *)
Definition removeMissingSealers (signers : list address) (count : nat)
    (c : Contract) : Contract :=
  fold_left
    (fun c i =>
       let s := sealerAt (fst c) i in
       if negb (contains signers s)
       then setSealerAt i zeroAddress (setIsSealerOf s false c)
       else c)
    (seq 0 count) c.

(** Body of the second loop of [synchronizeSealers], for the signer at
    position [i]. *)
Definition replicateSigner (c : Contract) (entry : nat * address)
    : Contract :=
  let '(i, signer) := entry in
  let s := sealerAt (fst c) i in
  let e := isSealerOf (fst c) signer in
  let c := if negb (N.eqb s signer) then setSealerAt i signer c else c in
  if negb e then setIsSealerOf signer true c else c.

(** Second loop of [synchronizeSealers]: replicate the snapshot. *)
Definition replicateSigners (signers : list address) (c : Contract)
    : Contract :=
  fold_left replicateSigner (combine (seq 0 (length signers)) signers) c.

(** [getSigners] is the engine's snapshot lookup; its outcome is an
    input here. *)
Definition synchronizeSealers (getSigners : result (list address))
    (registry : Registry) : result unit * Contract :=
  match getSigners with
  | Err e => (Err e, (registry, []))
  | Ok signers =>
      let contract : Contract := (registry, []) in
      let count := nbNodes (fst contract) in
      let contract := removeMissingSealers signers count contract in
      let contract := replicateSigners signers contract in
      let contract :=
        if negb (Nat.eqb count (length signers))
        then setNbNodes (length signers) contract else contract in
      (Ok tt, contract)
  end.

(** Modelled from the spec: the keyed session store behind
    [SetSessionVariable] and [ReadSessionVariable] ([state.SetState] and
    [state.GetState] of the state database are not part of the sources at
    hand).  The specification gives [readCounter(key) -> integer] and
    [writeCounter(key, integer)]: a store of integers addressed by key. *)
Record StateDB : Type := mkState {
  balance : address -> Z;
  sessionVariables : string -> Z;
  registry : Registry
}.

Definition sessionVariableTotalPocRCoins : string := "GeneratedPocRTotal".

Definition SetSessionVariable (key : string) (value : Z) (state : StateDB)
    : StateDB :=
  mkState (balance state)
          (fun k => if String.eqb k key then value else sessionVariables state k)
          (registry state).

Definition ReadSessionVariable (key : string) (state : StateDB) : Z :=
  sessionVariables state key.

Definition AddBalance (a : address) (amount : Z) (state : StateDB) : StateDB :=
  mkState (fun b => if N.eqb b a then balance state b + amount
                    else balance state b)
          (sessionVariables state) (registry state).

Definition SubBalance (a : address) (amount : Z) (state : StateDB) : StateDB :=
  mkState (fun b => if N.eqb b a then balance state b - amount
                    else balance state b)
          (sessionVariables state) (registry state).

Definition getTotalCryptoBalance (state : StateDB) : Z :=
  ReadSessionVariable sessionVariableTotalPocRCoins state.

(** Returns the new total next to the updated state. *)
Definition addTotalCryptoBalance (state : StateDB) (value : Z)
    : Z * StateDB :=
  let currentTotal := ReadSessionVariable sessionVariableTotalPocRCoins state in
  let newTotal := currentTotal + value in
  (newTotal, SetSessionVariable sessionVariableTotalPocRCoins newTotal state).

(** What the embedded proof-of-authority engine and the footprint contract
    answer for the block being processed. *)
Record BlockContext : Type := mkContext {
  headerNumber : Z;                       (* header.Number, within int64 *)
  engineSigner : address;                 (* c.EngineInstance.Signer *)
  headerAuthor : result address;          (* c.Author(header) *)
  getSigners : result (list address);     (* c.getSigners(chain, header, nil) *)
  contractFootprint : address -> result (Z * Z)
                                          (* contract.footprint: value, block *)
}.

(** The five values returned by [calcCarbonFootprintRanking]; a pointer
    that may be nil is an [option]. *)
Record RankingOutcome : Type := mkRanking {
  rk_footprint : option Z;
  rk_rank : option BigRat.Rat;
  rk_nbNodes : nat;
  rk_totalCrypto : option Z;
  rk_err : option error
}.

Definition rankingFailure (e : error) : RankingOutcome :=
  mkRanking None (Some (BigRat.NewRat 0 1)) 0 None (Some e).

(** The loop over the signers: every footprint read without error is
    penalised and collected; the author's one is kept aside.  The reads
    themselves ([contract.footprint]) belong to the contract accessor,
    which is not part of the sources at hand: as the specification has it,
    a failed read only leaves the signer out. *)
Definition collectFootprints (ctx : BlockContext) (author : address)
    (signers : list address) : list Z * option Z :=
  fold_left
    (fun acc signerAddress =>
       match contractFootprint ctx signerAddress with
       | Err _ => acc
       | Ok (f, block) =>
           let f := calcCarbonFootprintAuditIncentive f block
                      (headerNumber ctx) in
           (fst acc ++ [f],
            if N.eqb signerAddress author then Some f else snd acc)
       end)
    signers ([], None).

Definition calcCarbonFootprintRanking (ctx : BlockContext)
    (wp : RaceRankComputation) (author : address) (state : StateDB)
    : option (RankingOutcome * RaceRankComputation) :=
  match getSigners ctx with
  | Err e => Some (rankingFailure e, wp)
  | Ok signers =>
      let '(allNodesFootprint, footprint) :=
        collectFootprints ctx author signers in
      match footprint with
      | None => Some (rankingFailure ErrNoSealerFootprint, wp)
      | Some fp =>
          if BigInt.Cmp fp zero =? 0
          then Some (rankingFailure ErrNoSealerFootprint, wp)
          else
            match CalculateRanking wp fp allNodesFootprint with
            | None => None
            | Some (Err e, wp') => Some (rankingFailure e, wp')
            | Some (Ok (r, N), wp') =>
                let M := getTotalCryptoBalance state in
                Some (mkRanking (Some fp) (Some r) N (Some M) None, wp')
            end
      end
  end.

Definition calcCarbonFootprintReward (rank : BigRat.Rat) (nbNodes : nat)
    (totalCrypto : Z) : result Z :=
  match CalculateCarbonFootprintReward rank (Z.of_nat nbNodes) totalCrypto with
  | Err e => Err e
  | Ok reward => Ok reward
  end.

(** The balance and counter updates of [blockPostProcessing], from the
    block reward and the rank on. *)
Definition settleEarnings (author : address) (blockReward : Z)
    (rank : BigRat.Rat) (txs : list Transaction) (state : StateDB)
    : StateDB :=
  let state :=
    if BigInt.Sign blockReward >? 0
    then snd (addTotalCryptoBalance (AddBalance author blockReward state)
                                    blockReward)
    else state in
  let '(feeAdjustment, burnt) := calcCarbonFootprintTxFee rank txs in
  let state :=
    if BigInt.Sign feeAdjustment =? 1
    then snd (addTotalCryptoBalance (AddBalance author feeAdjustment state)
                                    feeAdjustment)
    else if BigInt.Sign feeAdjustment =? -1
    then snd (addTotalCryptoBalance
                (SubBalance author (BigInt.Abs feeAdjustment) state)
                feeAdjustment)
    else state in
  if negb (BigInt.Sign burnt =? 0)
  then snd (addTotalCryptoBalance state (BigInt.Neg burnt))
  else state.

(** [None] stands for a Go panic (an index out of range or a nil
    pointer). *)
Definition blockPostProcessing (ctx : BlockContext)
    (wp : RaceRankComputation) (state : StateDB) (txs : list Transaction)
    (newBlock : bool) : option (StateDB * RaceRankComputation) :=
  if headerNumber ctx <=? 0 then Some (state, wp)
  else
    match (if newBlock then Ok (engineSigner ctx) else headerAuthor ctx) with
    | Err _ => Some (state, wp)
    | Ok author =>
        match calcCarbonFootprintRanking ctx wp author state with
        | None => None
        | Some (rk, wp') =>
            let blockReward :=
              match rk_err rk with
              | Some _ => Some 0
              | None =>
                  match rk_rank rk, rk_totalCrypto rk with
                  | Some rank, Some totalCrypto =>
                      match calcCarbonFootprintReward rank (rk_nbNodes rk)
                                                      totalCrypto with
                      | Err _ => Some 0
                      | Ok r => Some r
                      end
                  | _, _ => None
                  end
              end in
            match blockReward with
            | None => None
            | Some blockReward =>
                let rank :=
                  match rk_rank rk with
                  | None => BigRat.NewRat 0 1
                  | Some rank => rank
                  end in
                let state := settleEarnings author blockReward rank txs state in
                let '(_, (reg, _)) :=
                  synchronizeSealers (getSigners ctx) (registry state) in
                Some (mkState (balance state) (sessionVariables state) reg,
                      wp')
            end
        end
    end.

(** ** Reference definitions for the statements *)

(** The entry of index [k] of the rank table, as [getRanking] builds it:
    entry 0 is 1 and each entry is the previous one multiplied by 0,9. *)
Fixpoint rankEntry (k : nat) : BigRat.Rat :=
  match k with
  | O => BigRat.NewRat 1 1
  | S k' => BigRat.Mul (rankEntry k') (BigRat.NewRat 9 10)
  end.

(** A table is well formed when it holds entries 0 to [n] for some [n]:
    what [NewRaceRankComputation] creates and [getRanking] maintains. *)
Definition tableOK (wp : RaceRankComputation) : Prop :=
  exists n : nat, rankArray wp = map rankEntry (seq 0 (S n)).

(** The number of strictly better peers, as the specification counts
    them: footprints strictly above 0 and strictly below the signer's. *)
Definition betterPeers (footprint : Z) (peers : list Z) : nat :=
  length (filter (fun p => (0 <? p) && (p <? footprint)) peers).

(** Conversion of a rational to an integer by truncation (rounding towards
    zero), as the specification words the last step of the reward. *)
Definition truncateRat (q : Q) : Z := Z.quot (Qnum q) (Zpos (Qden q)).

(** The registry mirrors the signer list: every slot holds the signer of
    the same position, every signer is enabled and the stored count is the
    length of the list. *)
Definition registrySynced (r : Registry) (signers : list address) : Prop :=
  nbNodes r = length signers
  /\ (forall i s, nth_error signers i = Some s -> sealerAt r i = s)
  /\ (forall s, In s signers -> isSealerOf r s = true).

(** ** Sample chain states *)

(** A state with empty balances, a counter at 0 and an empty registry. *)
Definition emptyState : StateDB :=
  mkState (fun _ => 0) (fun _ => 0)
          (mkRegistry 0 (fun _ => zeroAddress) (fun _ => false)).

(** Block 1 sealed by the single signer 1, whose footprint is [f] as of
    block 0. *)
Definition singleSignerBlock (f : Z) : BlockContext :=
  mkContext 1 1%N (Ok 1%N) (Ok [1%N]) (fun _ => Ok (f, 0)).

(** [c'] is [c] after zero or more writes: either nothing happened or the
    write log grew. *)
Definition writesFrom (c c' : Contract) : Prop :=
  c' = c \/ (length (snd c) < length (snd c'))%nat.

(** Body of the first loop of [synchronizeSealers], for slot [i]. *)
Definition removeMissingSealer (signers : list address) (c : Contract)
    (i : nat) : Contract :=
  let s := sealerAt (fst c) i in
  if negb (contains signers s)
  then setSealerAt i zeroAddress (setIsSealerOf s false c)
  else c.

(** The penalised footprints of the signers whose footprint can be read,
    in the order of the signer list. *)
Definition readableFootprints (ctx : BlockContext) (signers : list address)
    : list Z :=
  flat_map
    (fun s =>
       match contractFootprint ctx s with
       | Ok (f, block) =>
           [calcCarbonFootprintAuditIncentive f block (headerNumber ctx)]
       | Err _ => []
       end)
    signers.

(** The sealer of the block being processed, as [blockPostProcessing]
    determines it. *)
Definition blockAuthor (ctx : BlockContext) (newBlock : bool)
    : result address :=
  if newBlock then Ok (engineSigner ctx) else headerAuthor ctx.

(** ** The earlier reward scheme (consensus/cliquepcr/cliquepcr.go) *)

Module CliquePcr.

Inductive error : Type :=
| ErrAverageZeroNode        (* "cannot average with zero node" *)
| ErrTotalFootprint         (* "cannot proceed with zero or negative total footprint" *)
| ErrFootprint.             (* "cannot proceed with zero or negative footprint" *)

(** A value, an error, or a Go panic. *)
Inductive outcome (A : Type) : Type :=
| Value (a : A)
| Failure (e : error)
| Panic.
Arguments Value {A} a.
Arguments Failure {A} e.
Arguments Panic {A}.

(** [z.Quo(x, y)]: the quotient truncated towards zero. *)
Definition Quo (x y : Z) : Z := Z.quot x y.

(** [x.Sign()] of a rational. *)
Definition RatSign (x : BigRat.Rat) : Z := Z.sgn (Qnum x).

(** [z.Inv(x)] with its panic on a zero argument. *)
Definition Inv (x : BigRat.Rat) : option BigRat.Rat :=
  if Qnum x =? 0 then None else Some (BigRat.Inv x).

(** [x.Uint64()]: the low 64 bits of the magnitude, which is [x] itself
    for [0 <= x < 2^64]. *)
Definition Uint64 (x : Z) : Z := Z.abs x mod 2 ^ 64.

(** [int64(1) << s] for an unsigned shift count [s]: the bits shifted out
    are lost and bit 63 is the sign. *)
Definition shiftLeftOne (s : Z) : Z :=
  (2 ^ s + 2 ^ 63) mod 2 ^ 64 - 2 ^ 63.

Definition CalculateCarbonFootprintReward
    (nbNodes totalFootprint footprint : Z) : outcome Z :=
  if BigInt.Cmp nbNodes zero =? 0 then Failure ErrAverageZeroNode
  else if BigInt.Cmp totalFootprint zero <=? 0 then Failure ErrTotalFootprint
  else if BigInt.Cmp footprint zero <=? 0 then Failure ErrFootprint
  else
    let average := BigRat.SetFrac totalFootprint nbNodes in
    match Inv average with
    | None => Panic
    | Some ratio =>
        let ratio := BigRat.Mul ratio (BigRat.SetInt footprint) in
        let ratio := BigRat.Add ratio (BigRat.NewRat 2 10) in
        match Inv ratio with
        | None => Panic
        | Some ratio =>
            let ratio := BigRat.Sub ratio (BigRat.NewRat 5 10) in
            if RatSign ratio <=? 0 then Value 0
            else
              let reward := BigRat.SetInt CTCUnit in
              let reward := BigRat.Mul reward ratio in
              let rewardI := Quo (BigRat.Num reward) (BigRat.Denom reward) in
              let cap := 2 * CTCUnit in
              if BigInt.Cmp rewardI cap >? 0 then Value cap
              else Value rewardI
        end
    end.

(** The error returned next to the factor is always nil. *)
Definition CalculateGlobalInflationControlFactor (M : Z) : BigRat.Rat :=
  if BigInt.Cmp M zero =? 0 then BigRat.NewRat 1 1
  else
    let C := 8000000 * 30 / 3 in
    let C := C * CTCUnit in
    let L := BigRat.SetFrac M C in
    let L2 := Uint64 (Quo (BigRat.Num L) (BigRat.Denom L)) in
    let D := shiftLeftOne L2 in
    if D =? 0 then BigRat.NewRat 0 1
    else BigRat.NewRat 1 D.

End CliquePcr.

(** * Properties *)

(** ** Integer and rational helpers *)

Section BigNumbers.

Lemma Div_positive (x y : Z) : 0 < y -> BigInt.Div x y = x / y.
Proof.
  intros Hy. unfold BigInt.Div.
  destruct (Z.ltb_spec 0 y); [reflexivity | lia].
Qed.

(** Dividing the numerator by the denominator rounds towards minus
    infinity. *)
Lemma Div_Num_Denom (q : BigRat.Rat) :
  BigInt.Div (BigRat.Num q) (BigRat.Denom q) = Qfloor q.
Proof. destruct q as [n d]. reflexivity. Qed.

Lemma Qfloor_Qred (q : Q) : Qfloor (Qred q) = Qfloor q.
Proof. apply Qfloor_comp, Qred_correct. Qed.

Lemma Qfloor_sub_Z (q : Q) (z : Z) : Qfloor (q - inject_Z z) = Qfloor q - z.
Proof.
  destruct q as [n d]. unfold Qfloor, Qminus, Qplus, Qopp, inject_Z. simpl.
  rewrite Pos.mul_1_r.
  replace (n * 1 + - z * Z.pos d) with (n + (- z) * Z.pos d) by ring.
  rewrite Z.div_add by discriminate. ring.
Qed.

Lemma Sign_le_0 (x : Z) : (BigInt.Sign x <=? 0) = (x <=? 0).
Proof.
  unfold BigInt.Sign.
  destruct x; reflexivity.
Qed.

Lemma Cmp_rat_lt (x y : Q) : (BigRat.Cmp x y =? -1) = true <-> (x < y)%Q.
Proof.
  unfold BigRat.Cmp. rewrite Qlt_alt.
  destruct (x ?= y)%Q; split; intros H; try reflexivity; discriminate.
Qed.

End BigNumbers.

(** ** Fees *)

Lemma fee_loop_sums (txs : list Transaction) (a b : Z) :
  fold_left
    (fun acc tx => (fst acc + FeeTransferred tx, snd acc + FeeBurnt tx))
    txs (a, b)
  = (a + feesTransferred txs, b + feesBurnt txs).
Proof.
  revert a b. induction txs as [| tx txs IH]; intros a b; simpl.
  - now rewrite !Z.add_0_r.
  - rewrite IH. unfold feesTransferred, feesBurnt. simpl. f_equal; ring.
Qed.

(** C2 -- the fee adjustment is [floor(F * rank) - F] and the burnt total
    is the sum of the transactions' burnt fees, [F] being the sum of the
    transferred fees; a rank of 1 gives an adjustment of 0 and a rank of 0
    claws the whole of [F] back. *)
Theorem fee_adjustment_formula :
  forall (rank : BigRat.Rat) (txs : list Transaction),
    calcCarbonFootprintTxFee rank txs
    = (Qfloor (inject_Z (feesTransferred txs) * rank) - feesTransferred txs,
       feesBurnt txs)
    /\ calcCarbonFootprintTxFee (BigRat.NewRat 1 1) txs = (0, feesBurnt txs)
    /\ calcCarbonFootprintTxFee (BigRat.NewRat 0 1) txs
       = (- feesTransferred txs, feesBurnt txs).
Proof.
  assert (general : forall rank txs,
    calcCarbonFootprintTxFee rank txs
    = (Qfloor (inject_Z (feesTransferred txs) * rank) - feesTransferred txs,
       feesBurnt txs)).
  { intros rank txs. unfold calcCarbonFootprintTxFee.
    rewrite fee_loop_sums. simpl fst. rewrite !Z.add_0_l.
    rewrite Div_Num_Denom. unfold BigRat.Sub, BigRat.Mul, BigRat.SetInt.
    rewrite Qfloor_Qred, Qfloor_sub_Z, Qfloor_Qred. reflexivity. }
  intros rank txs. split; [apply general | split].
  - rewrite general. f_equal.
    replace (BigRat.NewRat 1 1) with 1%Q by reflexivity.
    rewrite Qmult_1_r, Qfloor_Z. ring.
  - rewrite general. f_equal.
    replace (BigRat.NewRat 0 1) with 0%Q by reflexivity.
    rewrite Qmult_0_r. reflexivity.
Qed.

(** ** Footprint penalty *)

(** C7 -- the penalised footprint is the footprint itself when no block
    elapsed since the audit or when the footprint is not positive, and
    otherwise [footprint * (100 + years * percent) / 100] with the division
    last; two full years on a footprint of 1000 give 1100. *)
Theorem audit_incentive_formula :
  forall footprint lastAuditBlock currentBlock : Z,
    calcCarbonFootprintAuditIncentive footprint lastAuditBlock currentBlock
    = (if (currentBlock - lastAuditBlock <=? 0) || (footprint <=? 0)
       then footprint
       else footprint
            * (100 + (currentBlock - lastAuditBlock) / MinBlockBetweenAudit
                     * PenaltyOnOldFootprint)
            / 100)
    /\ PenaltyOnOldFootprint = 5
    /\ calcCarbonFootprintAuditIncentive 1000 0 (2 * MinBlockBetweenAudit)
       = 1100.
Proof.
  intros footprint lastAuditBlock currentBlock.
  split; [| split; reflexivity].
  unfold calcCarbonFootprintAuditIncentive.
  rewrite !Sign_le_0.
  destruct ((currentBlock - lastAuditBlock <=? 0) || (footprint <=? 0));
    [reflexivity |].
  rewrite !Div_positive by reflexivity.
  f_equal. f_equal. ring.
Qed.

(** ** Rank table *)

Section RankTable.

Lemma rankEntry_succ (k : nat) :
  (rankEntry (S k) == rankEntry k * (9 # 10))%Q.
Proof. simpl. unfold BigRat.Mul. now rewrite Qred_correct. Qed.

Lemma rankEntry_power (k : nat) : (rankEntry k == rankTable k)%Q.
Proof.
  unfold rankTable. induction k as [| k IH].
  - reflexivity.
  - rewrite rankEntry_succ, IH, Nat2Z.inj_succ, <- Z.add_1_r.
    rewrite Qpower_plus by discriminate. reflexivity.
Qed.

Lemma rankEntry_positive (k : nat) : (0 < rankEntry k)%Q.
Proof.
  induction k as [| k IH].
  - reflexivity.
  - rewrite rankEntry_succ. apply Qmult_lt_0_compat; [exact IH | reflexivity].
Qed.

Lemma rankEntry_antitone (a b : nat) :
  (a <= b)%nat -> (rankEntry b <= rankEntry a)%Q.
Proof.
  induction 1 as [| b Hle IH].
  - apply Qle_refl.
  - rewrite rankEntry_succ. pose proof (rankEntry_positive b). lra.
Qed.

Lemma extendRanking_table (k n : nat) :
  extendRanking k (rankEntry n) (map rankEntry (seq 0 (S n)))
  = map rankEntry (seq 0 (S n + k)).
Proof.
  revert n. induction k as [| k IH]; intros n.
  - now rewrite Nat.add_0_r.
  - cbn [extendRanking].
    change (BigRat.Mul (rankEntry n) (BigRat.NewRat 9 10))
      with (rankEntry (S n)).
    replace (map rankEntry (seq 0 (S n)) ++ [rankEntry (S n)])
      with (map rankEntry (seq 0 (S (S n)))).
    + rewrite IH. f_equal. f_equal. lia.
    + rewrite (seq_S (S n) 0), map_app. reflexivity.
Qed.

Lemma nth_error_table (n i : nat) :
  (i < n)%nat -> nth_error (map rankEntry (seq 0 n)) i = Some (rankEntry i).
Proof.
  intros Hi. rewrite nth_error_map, nth_error_seq.
  destruct (Nat.ltb_spec i n); [reflexivity | lia].
Qed.

Lemma getRanking_table (wp : RaceRankComputation) (rank : nat) :
  tableOK wp ->
  exists wp', getRanking wp rank = Some (rankEntry rank, wp') /\ tableOK wp'.
Proof.
  intros [n Hn]. unfold getRanking. rewrite Hn.
  rewrite length_map, length_seq.
  replace (S n - 1)%nat with n by lia.
  rewrite nth_error_table by lia.
  rewrite extendRanking_table, nth_error_table by lia.
  eexists. split; [reflexivity |].
  exists (n + (rank + 1 - S n))%nat. reflexivity.
Qed.

Lemma NewRaceRankComputation_table : tableOK NewRaceRankComputation.
Proof. exists O. reflexivity. Qed.

End RankTable.

(** ** Ranking *)

Lemma countItemsAbove_betterPeers (footprint : Z) (peers : list Z) :
  countItemsAbove footprint peers = betterPeers footprint peers.
Proof.
  unfold countItemsAbove, betterPeers.
  enough (G : forall acc,
    fold_left
      (fun NbItemsAbove f =>
         if (BigInt.Cmp f footprint =? -1) && (BigInt.Cmp f zero >? 0)
         then S NbItemsAbove else NbItemsAbove) peers acc
    = Nat.add acc
        (length (filter (fun p => (0 <? p) && (p <? footprint)) peers)))
    by apply G.
  induction peers as [| p peers IH]; intros acc; simpl.
  - lia.
  - rewrite IH. unfold BigInt.Cmp, zero.
    destruct (Z.compare_spec p footprint), (Z.compare_spec p 0);
      destruct (Z.ltb_spec 0 p), (Z.ltb_spec p footprint);
      simpl; lia.
Qed.

Lemma betterPeers_monotone (f1 f2 : Z) (peers : list Z) :
  f1 <= f2 -> (betterPeers f1 peers <= betterPeers f2 peers)%nat.
Proof.
  intros Hf. unfold betterPeers.
  induction peers as [| p peers IH]; simpl; [lia |].
  destruct (Z.ltb_spec 0 p), (Z.ltb_spec p f1), (Z.ltb_spec p f2);
    simpl; lia.
Qed.

Lemma CalculateRanking_outcome (wp : RaceRankComputation)
    (footprint : Z) (peers : list Z) :
  tableOK wp ->
  exists wp',
    tableOK wp' /\
    CalculateRanking wp footprint peers
    = Some (if footprint <=? 0 then Err ErrZeroOrNegativeFootprint
            else if Nat.eqb (length peers) 0 then Err ErrRankZeroNode
            else Ok (rankEntry (betterPeers footprint peers), length peers),
            wp').
Proof.
  intros Hwp. unfold CalculateRanking, BigInt.Cmp, zero.
  destruct (Z.compare_spec footprint 0), (Z.leb_spec footprint 0);
    try lia; simpl; try (exists wp; split; [assumption | reflexivity]).
  destruct (Nat.eqb (length peers) 0).
  - exists wp. split; [assumption | reflexivity].
  - rewrite countItemsAbove_betterPeers.
    destruct (getRanking_table wp (betterPeers footprint peers) Hwp)
      as [wp' [-> Hwp']].
    exists wp'. split; [assumption | reflexivity].
Qed.

(** C6 -- from a well-formed rank table, [CalculateRanking] fails exactly
    when the footprint is not positive or the peer list is empty; on
    success the peer count is the length of the list and the rank is entry
    [better] of the rank table, [better] counting the peers with a
    footprint strictly between 0 and the signer's; a footprint of 100 among
    peers 50, 100, 150 and 0 gets rank 9/10 with 4 peers. *)
Theorem ranking_contract :
  forall (wp : RaceRankComputation) (footprint : Z) (peers : list Z),
    tableOK wp ->
    exists out wp',
      CalculateRanking wp footprint peers = Some (out, wp')
      /\ tableOK wp'
      /\ ((exists e, out = Err e) <-> footprint <= 0 \/ peers = [])
      /\ (footprint <= 0 -> out = Err ErrZeroOrNegativeFootprint)
      /\ (0 < footprint -> peers = [] -> out = Err ErrRankZeroNode)
      /\ (forall rank peerCount,
             out = Ok (rank, peerCount) ->
             peerCount = length peers
             /\ (rank == rankTable (betterPeers footprint peers))%Q)
      /\ (footprint = 100 -> peers = [50; 100; 150; 0] ->
          out = Ok (9 # 10, 4%nat)).
Proof.
  intros wp footprint peers Hwp.
  destruct (CalculateRanking_outcome wp footprint peers Hwp)
    as [wp' [Hwp' Hrun]].
  eexists. exists wp'. split; [exact Hrun |]. split; [exact Hwp' |].
  destruct (Z.leb_spec footprint 0) as [Hneg | Hpos].
  - split; [split; [intros _; now left | intros _; now eexists] |].
    split; [reflexivity |].
    split; [intros; lia |].
    split; [discriminate |].
    intros; lia.
  - destruct peers as [| p peers]; simpl.
    + split; [split; [intros _; now right | intros _; now eexists] |].
      split; [intros; lia |].
      split; [reflexivity |].
      split; discriminate.
    + split; [split; [intros [e He]; discriminate
                     | intros [H | H]; [lia | discriminate]] |].
      split; [intros; lia |].
      split; [discriminate |].
      split.
      * intros rank peerCount H. injection H as <- <-.
        split; [reflexivity | apply rankEntry_power].
      * intros -> H. injection H as -> ->. reflexivity.
Qed.

Lemma ranking_contract_witness :
  exists out wp',
    CalculateRanking NewRaceRankComputation 100 [50; 100; 150; 0]
    = Some (out, wp')
    /\ out = Ok (9 # 10, 4%nat).
Proof.
  destruct (ranking_contract NewRaceRankComputation 100 [50; 100; 150; 0])
    as (out & wp' & Hrun & _ & _ & _ & _ & _ & Hcase);
    [exists 0%nat; reflexivity |].
  exists out, wp'. split; [exact Hrun | apply Hcase; reflexivity].
Defined.

(** C8 -- for a fixed peer list and footprints [0 < f1 < f2] on which the
    ranking succeeds, the rank obtained for [f1] is at least the rank
    obtained for [f2]. *)
Theorem rank_monotone_in_footprint :
  forall (wp1 wp2 wp1' wp2' : RaceRankComputation) (peers : list Z)
         (f1 f2 : Z) (r1 r2 : BigRat.Rat) (n1 n2 : nat),
    tableOK wp1 -> tableOK wp2 ->
    0 < f1 -> f1 < f2 ->
    CalculateRanking wp1 f1 peers = Some (Ok (r1, n1), wp1') ->
    CalculateRanking wp2 f2 peers = Some (Ok (r2, n2), wp2') ->
    (r2 <= r1)%Q.
Proof.
  intros wp1 wp2 wp1' wp2' peers f1 f2 r1 r2 n1 n2 H1 H2 Hf1 Hlt R1 R2.
  destruct (CalculateRanking_outcome wp1 f1 peers H1) as [w1 [_ E1]].
  destruct (CalculateRanking_outcome wp2 f2 peers H2) as [w2 [_ E2]].
  rewrite R1 in E1. rewrite R2 in E2.
  destruct (Z.leb_spec f1 0); [lia |].
  destruct (Z.leb_spec f2 0); [lia |].
  destruct (Nat.eqb (length peers) 0); [discriminate |].
  injection E1 as -> _ _. injection E2 as -> _ _.
  apply rankEntry_antitone, betterPeers_monotone. lia.
Qed.

Lemma rank_monotone_in_footprint_witness :
  ((9 # 10) <= BigRat.NewRat 1 1)%Q.
Proof.
  apply (rank_monotone_in_footprint
           NewRaceRankComputation NewRaceRankComputation
           NewRaceRankComputation (mkRace [BigRat.NewRat 1 1; 9 # 10])
           [50; 100; 150; 0] 50 100 (BigRat.NewRat 1 1) (9 # 10) 4%nat 4%nat).
  - exists 0%nat. reflexivity.
  - exists 0%nat. reflexivity.
  - reflexivity.
  - reflexivity.
  - reflexivity.
  - reflexivity.
Defined.

(** ** Inflation control *)

Section InflationControl.

Open Scope Q_scope.

Lemma series_expand (L : Q) :
  truncatedSeries L
  == 1 + L + (1 # 2) * (L * L) + (1 # 6) * (L * L * L)
     + (1 # 24) * (L * L * L * L).
Proof. unfold truncatedSeries. simpl. field. Qed.

Lemma series_increasing (a b : Q) :
  0 <= a -> a < b -> truncatedSeries a < truncatedSeries b.
Proof.
  intros Ha Hab. rewrite !series_expand.
  assert (H2 : a * a < b * b) by nra.
  assert (H3 : a * a * a < b * b * b) by nra.
  assert (H4 : a * a * a * a < b * b * b * b) by nra.
  lra.
Qed.

Lemma series_above_1 (a : Q) : 0 < a -> 1 < truncatedSeries a.
Proof.
  intros Ha. rewrite series_expand.
  assert (H2 : 0 < a * a) by nra.
  assert (H3 : 0 < a * a * a) by nra.
  assert (H4 : 0 < a * a * a * a) by nra.
  lra.
Qed.

#[local] Instance truncatedSeries_comp :
  Proper (Qeq ==> Qeq) truncatedSeries.
Proof. intros a b Hab. rewrite !series_expand, Hab. reflexivity. Qed.

Lemma inflationExponent_positive (M : Z) :
  (0 < M)%Z -> 0 < inflationExponent M.
Proof.
  intros HM. unfold inflationExponent.
  apply Qmult_lt_0_compat; [| reflexivity].
  apply Qlt_shift_div_l; [reflexivity |].
  rewrite Qmult_0_l. unfold Qlt. simpl. lia.
Qed.

Lemma inflationExponent_increasing (M1 M2 : Z) :
  (M1 < M2)%Z -> inflationExponent M1 < inflationExponent M2.
Proof.
  intros HM. unfold inflationExponent.
  apply Qmult_lt_compat_r; [reflexivity |].
  apply Qmult_lt_compat_r; [reflexivity |].
  unfold Qlt. simpl. lia.
Qed.

(** The value computed by [CalculateGlobalInflationControlFactor], in
    closed form. *)
Lemma inflation_factor_value (M : Z) :
  CalculateGlobalInflationControlFactor M
  = if (M <? 0)%Z then Err ErrNegativeTotalCrypto
    else if (M =? 0)%Z then Ok 1
    else Ok (Qred (/ truncatedSeries (inflationExponent M))).
Proof.
  unfold CalculateGlobalInflationControlFactor, BigInt.Sign, BigInt.Cmp, zero.
  destruct M as [| p | p]; try reflexivity.
  cbn [Z.sgn Z.eqb Z.ltb Z.compare].
  cbv zeta. f_equal.
  set (L := BigRat.Mul _ (BigRat.NewRat 72 100)).
  assert (HL : L == inflationExponent (Z.pos p)).
  { unfold L, BigRat.Mul, BigRat.SetFrac, BigRat.NewRat, inflationExponent.
    rewrite !Qred_correct. reflexivity. }
  unfold BigRat.Inv. apply Qred_complete, Qinv_comp.
  rewrite <- HL. rewrite series_expand.
  unfold BigRat.Add, BigRat.Mul, BigRat.NewRat.
  rewrite !Qred_correct. field.
Qed.

End InflationControl.

(** C4 -- the control factor is exactly 1 for a supply of 0, the
    computation fails with the negative-supply error below 0, and above 0
    it returns 1/D in lowest terms with
    [D = 1 + L + L^2/2 + L^3/6 + L^4/24] and
    [L = M / (UNIT * INFLATION_DENOMINATOR) * 0.72]. *)
Theorem inflation_control_formula :
  forall M : Z,
    CalculateGlobalInflationControlFactor M
    = if M <? 0 then Err ErrNegativeTotalCrypto
      else if M =? 0 then Ok 1%Q
      else
        let L := (inject_Z M / inject_Z (CTCUnit * inflationDenominator)
                  * (72 # 100))%Q in
        let D := (1 + L + L ^ 2 / 2 + L ^ 3 / 6 + L ^ 4 / 24)%Q in
        Ok (Qred (/ D)).
Proof. intros M. apply inflation_factor_value. Qed.

(** C5 -- the control factor is 1 at supply 0, strictly decreasing over
    the positive supplies, and within (0, 1] for every supply that is not
    negative. *)
Theorem inflation_control_range_monotone :
  forall M1 M2 M : Z,
    0 < M1 -> M1 < M2 -> 0 <= M ->
    CalculateGlobalInflationControlFactor 0 = Ok 1%Q
    /\ (exists q1 q2,
          CalculateGlobalInflationControlFactor M1 = Ok q1
          /\ CalculateGlobalInflationControlFactor M2 = Ok q2
          /\ (q2 < q1)%Q)
    /\ (exists q,
          CalculateGlobalInflationControlFactor M = Ok q
          /\ (0 < q)%Q /\ (q <= 1)%Q).
Proof.
  intros M1 M2 M H1 H12 HM.
  split; [reflexivity | split].
  - rewrite !inflation_factor_value.
    destruct (Z.ltb_spec M1 0), (Z.ltb_spec M2 0); try lia.
    destruct (Z.eqb_spec M1 0), (Z.eqb_spec M2 0); try lia.
    do 2 eexists. split; [reflexivity | split; [reflexivity |]].
    rewrite !Qred_correct.
    pose proof (inflationExponent_positive M1 H1) as P1.
    pose proof (inflationExponent_increasing M1 M2 H12) as P12.
    pose proof (series_above_1 _ P1) as S1.
    pose proof (series_increasing _ _ (Qlt_le_weak _ _ P1) P12) as S12.
    apply -> Qinv_lt_contravar; [exact S12 | lra | lra].
  - rewrite inflation_factor_value.
    destruct (Z.ltb_spec M 0); try lia.
    destruct (Z.eqb_spec M 0) as [-> | Hne].
    + exists 1%Q. split; [reflexivity | split; [reflexivity | apply Qle_refl]].
    + eexists. split; [reflexivity |].
      rewrite !Qred_correct.
      assert (P : (0 < inflationExponent M)%Q)
        by (apply inflationExponent_positive; lia).
      pose proof (series_above_1 _ P) as S.
      split.
      * apply Qinv_lt_0_compat. lra.
      * apply Qle_shift_inv_r; lra.
Qed.

Lemma inflation_control_range_monotone_witness :
  CalculateGlobalInflationControlFactor 0 = Ok 1%Q
  /\ (exists q1 q2,
        CalculateGlobalInflationControlFactor (10 ^ 25) = Ok q1
        /\ CalculateGlobalInflationControlFactor (2 * 10 ^ 25) = Ok q2
        /\ (q2 < q1)%Q)
  /\ (exists q,
        CalculateGlobalInflationControlFactor (10 ^ 25) = Ok q
        /\ (0 < q)%Q /\ (q <= 1)%Q).
Proof.
  apply (inflation_control_range_monotone (10 ^ 25) (2 * 10 ^ 25) (10 ^ 25));
    reflexivity || discriminate.
Defined.

(** ** Reward *)

Section Reward.

Lemma truncateRat_floor (q : Q) : (0 <= q)%Q -> truncateRat q = Qfloor q.
Proof.
  destruct q as [n d]. unfold Qle, truncateRat, Qfloor. simpl.
  rewrite Z.mul_1_r. intros Hn.
  apply Z.quot_div_nonneg; lia.
Qed.

Lemma minCreationPerBlock_floor :
  Qfloor minCreationPerBlock = 12683916793505834.
Proof. vm_compute. reflexivity. Qed.

Lemma minCreationPerBlock_positive : (0 < minCreationPerBlock)%Q.
Proof. vm_compute. reflexivity. Qed.

(** The reward in closed form: the floor of the larger of the scaled rank
    and the minimum creation. *)
Lemma reward_value (rank : BigRat.Rat) (N M : Z) :
  CalculateCarbonFootprintReward rank N M
  = match CalculateGlobalInflationControlFactor M with
    | Err e => Err e
    | Ok c =>
        Ok (Qfloor (Qmax (rank * inject_Z CTCUnit * inject_Z N * c)
                         minCreationPerBlock))
    end.
Proof.
  unfold CalculateCarbonFootprintReward.
  destruct (CalculateGlobalInflationControlFactor M) as [c | e];
    [| reflexivity].
  f_equal. rewrite Div_Num_Denom.
  set (x := BigRat.Mul _ c).
  assert (Hx : (x == rank * inject_Z CTCUnit * inject_Z N * c)%Q).
  { unfold x, BigRat.Mul, BigRat.NewRat, BigRat.SetInt.
    rewrite !Qred_correct. generalize (inject_Z CTCUnit). intros unit.
    field. }
  rewrite <- Hx.
  destruct (BigRat.Cmp x minCreationPerBlock =? -1) eqn:Hcmp.
  - apply Cmp_rat_lt in Hcmp.
    apply Qfloor_comp. symmetry. apply Q.max_r. now apply Qlt_le_weak.
  - apply Qfloor_comp. symmetry. apply Q.max_l.
    apply Qnot_lt_le. intros Hlt. apply Cmp_rat_lt in Hlt. congruence.
Qed.

Lemma reward_at_least_minimum (rank : BigRat.Rat) (N M : Z) :
  0 <= M ->
  exists c u,
    CalculateGlobalInflationControlFactor M = Ok c
    /\ CalculateCarbonFootprintReward rank N M = Ok u
    /\ u = Qfloor (Qmax (rank * inject_Z CTCUnit * inject_Z N * c)
                        minCreationPerBlock)
    /\ u = truncateRat (Qmax (rank * inject_Z CTCUnit * inject_Z N * c)
                             minCreationPerBlock)
    /\ Qfloor minCreationPerBlock <= u.
Proof.
  intros HM. rewrite reward_value, inflation_factor_value.
  destruct (Z.ltb_spec M 0); [lia |].
  assert (G : forall c, exists c0 u,
    Ok c = Ok c0
    /\ Ok (Qfloor (Qmax (rank * inject_Z CTCUnit * inject_Z N * c)
                        minCreationPerBlock)) = Ok u
    /\ u = Qfloor (Qmax (rank * inject_Z CTCUnit * inject_Z N * c0)
                        minCreationPerBlock)
    /\ u = truncateRat (Qmax (rank * inject_Z CTCUnit * inject_Z N * c0)
                             minCreationPerBlock)
    /\ Qfloor minCreationPerBlock <= u).
  { intros c. do 2 eexists. split; [reflexivity |]. split; [reflexivity |].
    split; [reflexivity |]. split.
    - symmetry. apply truncateRat_floor.
      apply Qle_trans with minCreationPerBlock;
        [apply Qlt_le_weak, minCreationPerBlock_positive | apply Q.le_max_r].
    - apply Qfloor_resp_le, Q.le_max_r. }
  destruct (M =? 0); apply G.
Qed.

Lemma reward_negative_supply (rank : BigRat.Rat) (N M : Z) :
  M < 0 ->
  CalculateGlobalInflationControlFactor M = Err ErrNegativeTotalCrypto
  /\ CalculateCarbonFootprintReward rank N M = Err ErrNegativeTotalCrypto.
Proof.
  intros HM. rewrite reward_value, inflation_factor_value.
  destruct (Z.ltb_spec M 0); [split; reflexivity | lia].
Qed.

End Reward.

(** C3 (as amended) -- for a rank and a peer count that are not negative,
    the reward fails exactly when the inflation control fails, that is
    for a negative supply; on success it is the truncated value of
    [rank * UNIT * N * controlFactor(M)] clamped up to the minimum
    creation per block, it is never negative, and it is at least the
    truncated value of that minimum. *)
Theorem reward_contract :
  forall (rank : BigRat.Rat) (N M : Z),
    (0 <= rank)%Q -> 0 <= N ->
    ((exists e, CalculateCarbonFootprintReward rank N M = Err e) <-> M < 0)
    /\ ((exists e, CalculateGlobalInflationControlFactor M = Err e) <-> M < 0)
    /\ (M < 0 ->
        CalculateCarbonFootprintReward rank N M = Err ErrNegativeTotalCrypto)
    /\ (0 <= M ->
        exists c u,
          CalculateGlobalInflationControlFactor M = Ok c
          /\ CalculateCarbonFootprintReward rank N M = Ok u
          /\ u = truncateRat
                   (Qmax (rank * inject_Z CTCUnit * inject_Z N * c)
                         minCreationPerBlock)
          /\ 0 <= u
          /\ truncateRat minCreationPerBlock <= u).
Proof.
  intros rank N M _ _.
  assert (Hneg : M < 0 ->
    CalculateGlobalInflationControlFactor M = Err ErrNegativeTotalCrypto
    /\ CalculateCarbonFootprintReward rank N M = Err ErrNegativeTotalCrypto)
    by apply reward_negative_supply.
  assert (Hpos : 0 <= M -> exists c u,
    CalculateGlobalInflationControlFactor M = Ok c
    /\ CalculateCarbonFootprintReward rank N M = Ok u
    /\ u = truncateRat
             (Qmax (rank * inject_Z CTCUnit * inject_Z N * c)
                   minCreationPerBlock)
    /\ 0 <= u
    /\ truncateRat minCreationPerBlock <= u).
  { intros HM.
    destruct (reward_at_least_minimum rank N M HM)
      as (c & u & Hc & Hu & _ & Htr & Hmin).
    exists c, u. repeat (split; [assumption |]).
    rewrite truncateRat_floor
      by apply Qlt_le_weak, minCreationPerBlock_positive.
    rewrite minCreationPerBlock_floor in *. lia. }
  split; [| split; [| split; [intros H; apply Hneg, H | exact Hpos]]].
  - split.
    + intros [e He]. destruct (Z.lt_ge_cases M 0) as [| HM]; [assumption |].
      destruct (Hpos HM) as (c & u & _ & Hu & _). congruence.
    + intros HM. eexists. apply Hneg, HM.
  - split.
    + intros [e He]. destruct (Z.lt_ge_cases M 0) as [| HM]; [assumption |].
      destruct (Hpos HM) as (c & u & Hc & _). congruence.
    + intros HM. eexists. apply Hneg, HM.
Qed.

Lemma reward_contract_witness :
  exists u,
    CalculateCarbonFootprintReward (9 # 10) 4 0 = Ok u
    /\ 0 <= u /\ truncateRat minCreationPerBlock <= u.
Proof.
  destruct (reward_contract (9 # 10) 4 0) as (_ & _ & _ & H);
    [discriminate | lia |].
  destruct H as (c & u & _ & Hu & _ & H0 & Hmin); [lia |].
  exists u. split; [exact Hu | split; [exact H0 | exact Hmin]].
Defined.

(** C3 (as stated) fails on its last part: with a full rank, one peer and
    a large supply the reward is the truncated minimum, which lies
    strictly below the rational minimum creation per block. *)
Lemma reward_below_rational_minimum :
  (0 < BigRat.NewRat 1 1)%Q
  /\ 0 < 1
  /\ CalculateCarbonFootprintReward (BigRat.NewRat 1 1) 1 (10 ^ 30)
     = Ok 12683916793505834
  /\ ~ (minCreationPerBlock <= inject_Z 12683916793505834)%Q.
Proof.
  split; [reflexivity | split; [reflexivity | split]].
  - vm_compute. reflexivity.
  - apply Qlt_not_le. vm_compute. reflexivity.
Qed.

(** C10 -- the minimum-reward clamp applies whatever the rank and the
    peer count: for any rank and peer count that are not negative (a zero
    rank and zero peers included) and any supply that is not negative, the
    reward is at least the truncated minimum creation per block, which is
    strictly positive; a zero rank never yields a zero reward. *)
Theorem reward_minimum_unconditional :
  forall (rank : BigRat.Rat) (N M : Z),
    (0 <= rank)%Q -> 0 <= N -> 0 <= M ->
    exists u,
      CalculateCarbonFootprintReward rank N M = Ok u
      /\ truncateRat minCreationPerBlock <= u
      /\ 0 < truncateRat minCreationPerBlock
      /\ 0 < u.
Proof.
  intros rank N M _ _ HM.
  destruct (reward_at_least_minimum rank N M HM)
    as (c & u & _ & Hu & _ & _ & Hmin).
  exists u. split; [exact Hu |].
  rewrite truncateRat_floor
    by apply Qlt_le_weak, minCreationPerBlock_positive.
  rewrite minCreationPerBlock_floor in *. lia.
Qed.

Lemma reward_minimum_unconditional_witness :
  exists u,
    CalculateCarbonFootprintReward (BigRat.NewRat 0 1) 0 0 = Ok u
    /\ 0 < u.
Proof.
  destruct (reward_minimum_unconditional (BigRat.NewRat 0 1) 0 0)
    as (u & Hu & _ & _ & Hpos); [discriminate | lia | lia |].
  exists u. split; [exact Hu | exact Hpos].
Defined.

(** ** Sealer registry *)

Section SealerRegistry.

Lemma contains_In (array : list address) (value : address) :
  contains array value = true <-> In value array.
Proof.
  unfold contains. rewrite existsb_exists. split.
  - intros [v [Hin Heq]]. apply N.eqb_eq in Heq. now subst.
  - intros Hin. exists value. split; [assumption | apply N.eqb_refl].
Qed.

Lemma fold_left_fixed {A B : Type} (f : A -> B -> A) (l : list B) (a : A) :
  (forall x, In x l -> f a x = a) -> fold_left f l a = a.
Proof.
  induction l as [| x l IH]; intros H; simpl; [reflexivity |].
  rewrite (H x) by now left. apply IH. intros y Hy. apply H. now right.
Qed.

Lemma In_combine_seq (l : list address) (k i : nat) (s : address) :
  In (i, s) (combine (seq k (length l)) l) ->
  (k <= i)%nat /\ nth_error l (i - k) = Some s.
Proof.
  revert k. induction l as [| x l IH]; intros k; simpl; [tauto |].
  intros [Heq | Hin].
  - injection Heq as -> ->. rewrite Nat.sub_diag. split; [lia | reflexivity].
  - destruct (IH _ Hin) as [Hle Hnth]. split; [lia |].
    replace (i - k)%nat with (S (i - S k)) by lia. exact Hnth.
Qed.

(** The first loop leaves the count alone. *)
Lemma removeMissingSealers_nbNodes (signers : list address) (count : nat)
    (c : Contract) :
  nbNodes (fst (removeMissingSealers signers count c)) = nbNodes (fst c).
Proof.
  unfold removeMissingSealers. generalize (seq 0 count) as l. intros l.
  revert c. induction l as [| i l IH]; intros c; simpl; [reflexivity |].
  rewrite IH. destruct c as [r w].
  destruct (negb (contains signers (sealerAt (fst (r, w)) i))); reflexivity.
Qed.

(** The second loop, started at slot [k]: it fills the slots from [k] on
    with the signers, enables them, and leaves the rest as it was. *)
Lemma replicate_loop (l : list address) (k : nat) (c : Contract) :
  let c' := fold_left replicateSigner (combine (seq k (length l)) l) c in
  nbNodes (fst c') = nbNodes (fst c)
  /\ (forall i, (i < k)%nat -> sealerAt (fst c') i = sealerAt (fst c) i)
  /\ (forall i s, nth_error l i = Some s -> sealerAt (fst c') (k + i) = s)
  /\ (forall a, isSealerOf (fst c) a = true -> isSealerOf (fst c') a = true)
  /\ (forall s, In s l -> isSealerOf (fst c') s = true).
Proof.
  revert k c. induction l as [| x l IH]; intros k c; cbn zeta.
  - simpl. split; [reflexivity |]. split; [reflexivity |].
    split; [intros i s H; destruct i; discriminate |].
    split; [auto | intros s []].
  - cbn [length seq combine fold_left].
    set (c1 := replicateSigner c (k, x)).
    assert (Hnb : nbNodes (fst c1) = nbNodes (fst c)).
    { unfold c1, replicateSigner. destruct c as [r w]. cbn [fst].
      destruct (negb (isSealerOf r x)), (negb (N.eqb (sealerAt r k) x));
        reflexivity. }
    assert (Hk : sealerAt (fst c1) k = x).
    { unfold c1, replicateSigner. destruct c as [r w]. simpl.
      destruct (N.eqb_spec (sealerAt r k) x) as [E | E];
        destruct (isSealerOf r x); simpl;
        try rewrite Nat.eqb_refl; congruence. }
    assert (Hother : forall i, i <> k ->
              sealerAt (fst c1) i = sealerAt (fst c) i).
    { intros i Hi. unfold c1, replicateSigner. destruct c as [r w]. simpl.
      destruct (N.eqb (sealerAt r k) x), (isSealerOf r x); simpl;
        try reflexivity;
        destruct (Nat.eqb_spec i k); congruence. }
    assert (Hx : isSealerOf (fst c1) x = true).
    { unfold c1, replicateSigner. destruct c as [r w]. simpl.
      destruct (isSealerOf r x) eqn:E; simpl.
      - destruct (N.eqb (sealerAt r k) x); simpl; exact E.
      - destruct (N.eqb (sealerAt r k) x); simpl; now rewrite N.eqb_refl. }
    assert (Hkeep : forall a, isSealerOf (fst c) a = true ->
              isSealerOf (fst c1) a = true).
    { intros a Ha. unfold c1, replicateSigner. destruct c as [r w].
      simpl in *.
      destruct (isSealerOf r x) eqn:E; simpl.
      - destruct (N.eqb (sealerAt r k) x); simpl; exact Ha.
      - destruct (N.eqb (sealerAt r k) x); simpl;
          destruct (N.eqb a x); auto. }
    destruct (IH (S k) c1) as (I1 & I2 & I3 & I4 & I5).
    split; [now rewrite I1 |].
    split; [intros i Hi; rewrite I2 by lia; apply Hother; lia |].
    split.
    { intros [| i] s Hs.
      - injection Hs as <-. rewrite Nat.add_0_r, I2 by lia. exact Hk.
      - replace (k + S i)%nat with (S k + i)%nat by lia. now apply I3. }
    split; [intros a Ha; apply I4, Hkeep, Ha |].
    intros s [<- | Hin]; [apply I4, Hx | now apply I5].
Qed.

Lemma replicateSigners_synced (signers : list address) (c : Contract) :
  nbNodes (fst (replicateSigners signers c)) = nbNodes (fst c)
  /\ (forall i s, nth_error signers i = Some s ->
        sealerAt (fst (replicateSigners signers c)) i = s)
  /\ (forall s, In s signers ->
        isSealerOf (fst (replicateSigners signers c)) s = true).
Proof.
  destruct (replicate_loop signers 0 c) as (H1 & _ & H3 & _ & H5).
  split; [exact H1 | split; [| exact H5]].
  intros i s Hs. exact (H3 i s Hs).
Qed.

(** After a run the registry mirrors the signer list. *)
Lemma synchronizeSealers_synced (registry : Registry)
    (signers : list address) :
  registrySynced (fst (snd (synchronizeSealers (Ok signers) registry)))
                 signers.
Proof.
  unfold synchronizeSealers. cbn zeta. cbn [fst snd].
  set (c1 := removeMissingSealers signers (nbNodes registry) (registry, [])).
  destruct (replicateSigners_synced signers c1) as (H1 & H2 & H3).
  assert (Hc1 : nbNodes (fst c1) = nbNodes registry)
    by apply removeMissingSealers_nbNodes.
  destruct (Nat.eqb_spec (nbNodes registry) (length signers)) as [E | E];
    cbn [negb].
  - split; [congruence | split; assumption].
  - destruct (replicateSigners signers c1) as [r w] eqn:Er.
    simpl in *. split; [reflexivity | split; assumption].
Qed.

(** On a registry that mirrors the signer list a run writes nothing. *)
Lemma synchronizeSealers_noop (registry : Registry)
    (signers : list address) :
  registrySynced registry signers ->
  synchronizeSealers (Ok signers) registry = (Ok tt, (registry, [])).
Proof.
  intros (Hnb & Hslot & Hon). unfold synchronizeSealers. cbn zeta.
  cbn [fst]. rewrite Hnb.
  assert (P1 : removeMissingSealers signers (length signers) (registry, [])
               = (registry, [])).
  { unfold removeMissingSealers. apply fold_left_fixed.
    intros i Hi. apply in_seq in Hi. cbn [fst].
    destruct (nth_error signers i) as [s |] eqn:Es.
    - rewrite (Hslot i s Es).
      replace (contains signers s) with true; [reflexivity |].
      symmetry. apply contains_In. eapply nth_error_In, Es.
    - apply nth_error_None in Es. lia. }
  rewrite P1.
  assert (P2 : replicateSigners signers (registry, []) = (registry, [])).
  { unfold replicateSigners. apply fold_left_fixed.
    intros [i s] Hin. apply In_combine_seq in Hin as [_ Hnth].
    rewrite Nat.sub_0_r in Hnth. unfold replicateSigner. cbn [fst].
    rewrite (Hslot i s Hnth), N.eqb_refl.
    rewrite (Hon s) by (eapply nth_error_In, Hnth). reflexivity. }
  rewrite P2, Nat.eqb_refl. reflexivity.
Qed.

End SealerRegistry.

(** C9 -- synchronising twice with the same signer list: after the first
    run every slot holds the corresponding signer, every signer is enabled
    and the stored count is the length of the list, so the second run
    issues no storage write and leaves the registry as it is; when the
    signer list cannot be obtained neither run writes anything. *)
Theorem synchronize_idempotent :
  forall (registry : Registry) (signers : list address) (e : error),
    let first := synchronizeSealers (Ok signers) registry in
    let second := synchronizeSealers (Ok signers) (fst (snd first)) in
    registrySynced (fst (snd first)) signers
    /\ snd (snd second) = []
    /\ fst (snd second) = fst (snd first)
    /\ fst second = Ok tt
    /\ synchronizeSealers (Err e) registry = (Err e, (registry, [])).
Proof.
  intros registry signers e first second.
  pose proof (synchronizeSealers_synced registry signers) as Hsync.
  fold first in Hsync.
  unfold second. rewrite (synchronizeSealers_noop _ _ Hsync).
  repeat split; apply Hsync.
Qed.

(** ** Total supply counter *)

Section TotalSupply.



End TotalSupply.

(** ** Block post-processing *)

Section PostProcessing.

Lemma rankEntry_at_most_1 (k : nat) : (rankEntry k <= 1)%Q.
Proof. apply (rankEntry_antitone 0 k). lia. Qed.

(** The ranking step never panics on a well-formed table: it either
    fails, handing a zero rank over, or succeeds with an entry of the rank
    table and the current counter. *)
Lemma calcCarbonFootprintRanking_outcome (ctx : BlockContext)
    (wp : RaceRankComputation) (author : address) (state : StateDB) :
  tableOK wp ->
  exists rk wp',
    calcCarbonFootprintRanking ctx wp author state = Some (rk, wp')
    /\ tableOK wp'
    /\ ((exists e, rk = rankingFailure e)
        \/ (exists fp k N,
              rk = mkRanking (Some fp) (Some (rankEntry k)) N
                             (Some (getTotalCryptoBalance state)) None)).
Proof.
  intros Hwp. unfold calcCarbonFootprintRanking.
  destruct (getSigners ctx) as [signers | e].
  2: { exists (rankingFailure e), wp. split; [reflexivity |].
       split; [assumption | left; now eexists]. }
  destruct (collectFootprints ctx author signers) as [all [fp |]].
  2: { do 2 eexists. split; [reflexivity |].
       split; [assumption | left; now eexists]. }
  destruct (BigInt.Cmp fp zero =? 0).
  { do 2 eexists. split; [reflexivity |].
    split; [assumption | left; now eexists]. }
  destruct (CalculateRanking_outcome wp fp all Hwp) as [wp' [Hwp' ->]].
  destruct (fp <=? 0).
  { do 2 eexists. split; [reflexivity |].
    split; [assumption | left; now eexists]. }
  destruct (Nat.eqb (length all) 0).
  { do 2 eexists. split; [reflexivity |].
    split; [assumption | left; now eexists]. }
  do 2 eexists. split; [reflexivity |].
  split; [assumption | right; now do 3 eexists].
Qed.


End PostProcessing.




(** * Further properties of the code *)

(** ** Footprint penalty: order and sign *)

Section AuditIncentive.

Lemma auditIncentive_value (footprint lastBlock currentBlock : Z) :
  calcCarbonFootprintAuditIncentive footprint lastBlock currentBlock
  = if (currentBlock - lastBlock <=? 0) || (footprint <=? 0)
    then footprint
    else footprint
         * (100 + (currentBlock - lastBlock) / MinBlockBetweenAudit
                  * PenaltyOnOldFootprint)
         / 100.
Proof.
  unfold calcCarbonFootprintAuditIncentive. rewrite !Sign_le_0.
  destruct ((currentBlock - lastBlock <=? 0) || (footprint <=? 0));
    [reflexivity |].
  rewrite !Div_positive by reflexivity. f_equal. f_equal. ring.
Qed.

Lemma penalty_factor_bounds (delta : Z) :
  0 <= delta -> 100 <= 100 + delta / MinBlockBetweenAudit * PenaltyOnOldFootprint.
Proof.
  intros Hd.
  assert (0 <= delta / MinBlockBetweenAudit)
    by (apply Z.div_pos; [assumption | reflexivity]).
  unfold PenaltyOnOldFootprint. lia.
Qed.

Lemma auditIncentive_at_least (footprint lastBlock currentBlock : Z) :
  footprint
  <= calcCarbonFootprintAuditIncentive footprint lastBlock currentBlock.
Proof.
  rewrite auditIncentive_value.
  destruct (Z.leb_spec (currentBlock - lastBlock) 0) as [Hd | Hd];
    [simpl; lia |].
  destruct (Z.leb_spec footprint 0) as [Hf | Hf]; [simpl; lia |].
  cbn [orb].
  pose proof (penalty_factor_bounds (currentBlock - lastBlock)
                ltac:(lia)) as Hfac.
  rewrite <- (Z.div_mul footprint 100) at 1 by discriminate.
  apply Z.div_le_mono; [reflexivity | nia].
Qed.

End AuditIncentive.

(** X1 -- the penalty never lowers a footprint and keeps its sign: a
    footprint of zero (no footprint recorded) stays zero, a positive one
    stays positive, whatever the two block numbers. *)
Theorem audit_incentive_never_lowers :
  forall footprint lastAuditBlock currentBlock : Z,
    footprint
    <= calcCarbonFootprintAuditIncentive footprint lastAuditBlock currentBlock
    /\ Z.sgn (calcCarbonFootprintAuditIncentive footprint lastAuditBlock
                                                currentBlock)
       = Z.sgn footprint.
Proof.
  intros footprint lastAuditBlock currentBlock.
  pose proof (auditIncentive_at_least footprint lastAuditBlock currentBlock)
    as Hle.
  split; [exact Hle |].
  destruct (Z.leb_spec footprint 0) as [Hf | Hf].
  - rewrite auditIncentive_value.
    destruct (Z.leb_spec footprint 0); [| lia].
    now rewrite orb_true_r.
  - rewrite (Z.sgn_pos footprint) by lia. apply Z.sgn_pos. lia.
Qed.

(** X2 -- no penalty applies before a full audit period has elapsed: when
    fewer than [MinBlockBetweenAudit] blocks separate the audit from the
    current block, the footprint is returned as it is. *)
Theorem audit_incentive_grace_period :
  forall footprint lastAuditBlock currentBlock : Z,
    currentBlock - lastAuditBlock < MinBlockBetweenAudit ->
    calcCarbonFootprintAuditIncentive footprint lastAuditBlock currentBlock
    = footprint.
Proof.
  intros footprint lastAuditBlock currentBlock Hd.
  rewrite auditIncentive_value.
  destruct ((currentBlock - lastAuditBlock <=? 0) || (footprint <=? 0)) eqn:E;
    [reflexivity |].
  apply orb_false_iff in E as [E _]. apply Z.leb_gt in E.
  rewrite (Z.div_small (currentBlock - lastAuditBlock) MinBlockBetweenAudit)
    by (split; [lia | exact Hd]).
  rewrite Z.mul_0_l, Z.add_0_r. apply Z.div_mul. discriminate.
Qed.

Lemma audit_incentive_grace_period_witness :
  calcCarbonFootprintAuditIncentive 1000 0 (MinBlockBetweenAudit - 1) = 1000.
Proof.
  apply (audit_incentive_grace_period 1000 0 (MinBlockBetweenAudit - 1)).
  vm_compute. reflexivity.
Defined.

(** X3 -- the penalty preserves the order of footprints audited at the
    same block, and a footprint audited at a given block never shrinks as
    the chain grows. *)
Theorem audit_incentive_monotone :
  forall f1 f2 lastAuditBlock b1 b2 : Z,
    f1 <= f2 -> b1 <= b2 ->
    calcCarbonFootprintAuditIncentive f1 lastAuditBlock b1
    <= calcCarbonFootprintAuditIncentive f2 lastAuditBlock b1
    /\ calcCarbonFootprintAuditIncentive f1 lastAuditBlock b1
       <= calcCarbonFootprintAuditIncentive f1 lastAuditBlock b2.
Proof.
  intros f1 f2 l b1 b2 Hf Hb. split.
  - destruct (Z.leb_spec f1 0) as [H1 | H1].
    + apply Z.le_trans with f2; [| apply auditIncentive_at_least].
      rewrite auditIncentive_value.
      destruct (Z.leb_spec f1 0); [| lia].
      now rewrite orb_true_r.
    + rewrite !auditIncentive_value.
      destruct (Z.leb_spec (b1 - l) 0) as [Hd | Hd]; [simpl; lia |].
      destruct (Z.leb_spec f1 0), (Z.leb_spec f2 0); try lia. cbn [orb].
      pose proof (penalty_factor_bounds (b1 - l) ltac:(lia)).
      apply Z.div_le_mono; [reflexivity | nia].
  - destruct (Z.leb_spec f1 0) as [H1 | H1].
    + rewrite !auditIncentive_value.
      destruct (Z.leb_spec f1 0); [| lia].
      rewrite !orb_true_r. lia.
    + destruct (Z.leb_spec (b1 - l) 0) as [Hd | Hd].
      * apply Z.le_trans with f1; [| apply auditIncentive_at_least].
        rewrite auditIncentive_value.
        destruct (Z.leb_spec (b1 - l) 0); [| lia]. simpl. lia.
      * rewrite !auditIncentive_value.
        destruct (Z.leb_spec (b1 - l) 0), (Z.leb_spec (b2 - l) 0),
                 (Z.leb_spec f1 0); try lia. cbn [orb].
        pose proof (penalty_factor_bounds (b1 - l) ltac:(lia)).
        assert ((b1 - l) / MinBlockBetweenAudit
                <= (b2 - l) / MinBlockBetweenAudit)
          by (apply Z.div_le_mono; [reflexivity | lia]).
        apply Z.div_le_mono; [reflexivity |].
        unfold PenaltyOnOldFootprint in *. nia.
Qed.

Lemma audit_incentive_monotone_witness :
  calcCarbonFootprintAuditIncentive 1000 0 (2 * MinBlockBetweenAudit)
  <= calcCarbonFootprintAuditIncentive 2000 0 (2 * MinBlockBetweenAudit)
  /\ calcCarbonFootprintAuditIncentive 1000 0 (2 * MinBlockBetweenAudit)
     <= calcCarbonFootprintAuditIncentive 1000 0 (3 * MinBlockBetweenAudit).
Proof.
  apply (audit_incentive_monotone 1000 2000 0 (2 * MinBlockBetweenAudit)
           (3 * MinBlockBetweenAudit)); vm_compute; discriminate.
Defined.

(** ** Fee adjustment: bounds and order *)

Section FeeBounds.

Lemma fee_adjustment_value (rank : BigRat.Rat) (txs : list Transaction) :
  calcCarbonFootprintTxFee rank txs
  = (Qfloor (inject_Z (feesTransferred txs) * rank) - feesTransferred txs,
     feesBurnt txs).
Proof.
  unfold calcCarbonFootprintTxFee.
  rewrite fee_loop_sums. simpl fst. rewrite !Z.add_0_l.
  rewrite Div_Num_Denom. unfold BigRat.Sub, BigRat.Mul, BigRat.SetInt.
  rewrite Qfloor_Qred, Qfloor_sub_Z, Qfloor_Qred. reflexivity.
Qed.

Lemma inject_Z_nonneg (z : Z) : 0 <= z -> (0 <= inject_Z z)%Q.
Proof. intros Hz. unfold Qle. simpl. lia. Qed.

Lemma Qmult_le_left (z x y : Q) :
  (0 <= z)%Q -> (x <= y)%Q -> (z * x <= z * y)%Q.
Proof.
  intros Hz Hxy. rewrite (Qmult_comm z x), (Qmult_comm z y).
  now apply Qmult_le_compat_r.
Qed.

Lemma fees_sum_app (txs1 txs2 : list Transaction) :
  feesTransferred (txs1 ++ txs2) = feesTransferred txs1 + feesTransferred txs2
  /\ feesBurnt (txs1 ++ txs2) = feesBurnt txs1 + feesBurnt txs2.
Proof.
  unfold feesTransferred, feesBurnt.
  induction txs1 as [| tx txs1 [IH1 IH2]]; simpl; [split; reflexivity |].
  rewrite IH1, IH2. split; ring.
Qed.

End FeeBounds.

(** X4 -- with a rank within [0, 1] and fees that sum to a non-negative
    amount, the adjustment lies between [-F] and 0: the sealer keeps
    between nothing and all of the fees it received and is never topped
    up. *)
Theorem fee_adjustment_bounds :
  forall (rank : BigRat.Rat) (txs : list Transaction),
    (0 <= rank)%Q -> (rank <= 1)%Q ->
    0 <= feesTransferred txs ->
    - feesTransferred txs <= fst (calcCarbonFootprintTxFee rank txs)
    /\ fst (calcCarbonFootprintTxFee rank txs) <= 0.
Proof.
  intros rank txs Hr0 Hr1 HF.
  rewrite fee_adjustment_value. cbn [fst].
  pose proof (inject_Z_nonneg _ HF) as HF'.
  assert (H0 : 0 <= Qfloor (inject_Z (feesTransferred txs) * rank)).
  { change 0 with (Qfloor 0). apply Qfloor_resp_le.
    apply Qmult_le_0_compat; assumption. }
  assert (H1 : Qfloor (inject_Z (feesTransferred txs) * rank)
               <= feesTransferred txs).
  { rewrite <- (Qfloor_Z (feesTransferred txs)) at 2.
    apply Qfloor_resp_le.
    rewrite <- (Qmult_1_r (inject_Z (feesTransferred txs))) at 2.
    apply Qmult_le_left; assumption. }
  lia.
Qed.

Lemma fee_adjustment_bounds_witness :
  - feesTransferred [mkTx 10 1; mkTx 5 0]
  <= fst (calcCarbonFootprintTxFee (9 # 10) [mkTx 10 1; mkTx 5 0])
  /\ fst (calcCarbonFootprintTxFee (9 # 10) [mkTx 10 1; mkTx 5 0]) <= 0.
Proof.
  apply (fee_adjustment_bounds (9 # 10) [mkTx 10 1; mkTx 5 0]);
    vm_compute; discriminate.
Defined.

(** X5 -- for fees that sum to a non-negative amount a better rank never
    costs more: the adjustment is monotone in the rank, while the burnt
    total does not depend on the rank at all. *)
Theorem fee_adjustment_monotone_in_rank :
  forall (r1 r2 : BigRat.Rat) (txs : list Transaction),
    (r1 <= r2)%Q ->
    0 <= feesTransferred txs ->
    fst (calcCarbonFootprintTxFee r1 txs)
    <= fst (calcCarbonFootprintTxFee r2 txs)
    /\ snd (calcCarbonFootprintTxFee r1 txs)
       = snd (calcCarbonFootprintTxFee r2 txs).
Proof.
  intros r1 r2 txs Hr HF. rewrite !fee_adjustment_value. cbn [fst snd].
  split; [| reflexivity].
  apply Z.sub_le_mono_r, Qfloor_resp_le.
  apply Qmult_le_left; [apply inject_Z_nonneg, HF | exact Hr].
Qed.

Lemma fee_adjustment_monotone_in_rank_witness :
  fst (calcCarbonFootprintTxFee (81 # 100) [mkTx 10 1; mkTx 5 0])
  <= fst (calcCarbonFootprintTxFee (9 # 10) [mkTx 10 1; mkTx 5 0])
  /\ snd (calcCarbonFootprintTxFee (81 # 100) [mkTx 10 1; mkTx 5 0])
     = snd (calcCarbonFootprintTxFee (9 # 10) [mkTx 10 1; mkTx 5 0]).
Proof.
  apply (fee_adjustment_monotone_in_rank (81 # 100) (9 # 10)
           [mkTx 10 1; mkTx 5 0]); vm_compute; discriminate.
Defined.

(** X6 -- the fee computation depends on the transactions only through
    their totals: reordering the transactions of a block changes neither
    the adjustment nor the burnt amount. *)
Theorem fee_adjustment_order_independent :
  forall (rank : BigRat.Rat) (txs txs' : list Transaction),
    Permutation txs txs' ->
    calcCarbonFootprintTxFee rank txs = calcCarbonFootprintTxFee rank txs'.
Proof.
  intros rank txs txs' Hperm. rewrite !fee_adjustment_value.
  assert (H : feesTransferred txs = feesTransferred txs'
              /\ feesBurnt txs = feesBurnt txs').
  { unfold feesTransferred, feesBurnt.
    induction Hperm as [| tx l l' _ [IH1 IH2] | tx1 tx2 l
                        | l l' l'' _ [IH1 IH2] _ [IH3 IH4]]; simpl.
    - split; reflexivity.
    - rewrite IH1, IH2. split; reflexivity.
    - split; ring.
    - split; congruence. }
  destruct H as [-> ->]. reflexivity.
Qed.

Lemma fee_adjustment_order_independent_witness :
  calcCarbonFootprintTxFee (9 # 10) [mkTx 10 1; mkTx 5 0]
  = calcCarbonFootprintTxFee (9 # 10) [mkTx 5 0; mkTx 10 1].
Proof.
  apply (fee_adjustment_order_independent (9 # 10)
           [mkTx 10 1; mkTx 5 0] [mkTx 5 0; mkTx 10 1]).
  apply perm_swap.
Defined.

(** ** Ranking: order independence and bounds *)

Section RankingBounds.

Lemma betterPeers_permutation (footprint : Z) (peers peers' : list Z) :
  Permutation peers peers' ->
  betterPeers footprint peers = betterPeers footprint peers'.
Proof.
  unfold betterPeers.
  induction 1 as [| p l l' _ IH | p q l | l l' l'' _ IH1 _ IH2]; simpl.
  - reflexivity.
  - destruct ((0 <? p) && (p <? footprint)); simpl; now rewrite IH.
  - destruct ((0 <? p) && (p <? footprint)),
             ((0 <? q) && (q <? footprint)); reflexivity.
  - congruence.
Qed.

Lemma betterPeers_at_most (footprint : Z) (peers : list Z) :
  (betterPeers footprint peers <= length peers)%nat.
Proof. unfold betterPeers. apply filter_length_le. Qed.

Lemma rankEntry_one (k : nat) : (rankEntry k == 1)%Q <-> k = O.
Proof.
  split; [| intros ->; reflexivity].
  destruct k as [| k]; [reflexivity |]. intros H. exfalso.
  pose proof (rankEntry_antitone 1 (S k) ltac:(lia)) as Hle.
  rewrite H in Hle. revert Hle. apply Qlt_not_le. reflexivity.
Qed.

End RankingBounds.

(** X7 -- sorting is not necessary: the ranking of a footprint is the same
    whatever the order in which the peers' footprints are listed. *)
Theorem ranking_order_independent :
  forall (wp : RaceRankComputation) (footprint : Z) (peers peers' : list Z),
    Permutation peers peers' ->
    CalculateRanking wp footprint peers = CalculateRanking wp footprint peers'.
Proof.
  intros wp footprint peers peers' Hperm. unfold CalculateRanking.
  rewrite !countItemsAbove_betterPeers.
  rewrite (betterPeers_permutation _ _ _ Hperm).
  rewrite (Permutation_length Hperm). reflexivity.
Qed.

Lemma ranking_order_independent_witness :
  CalculateRanking NewRaceRankComputation 100 [50; 100; 150; 0]
  = CalculateRanking NewRaceRankComputation 100 [100; 50; 150; 0].
Proof.
  apply (ranking_order_independent NewRaceRankComputation 100
           [50; 100; 150; 0] [100; 50; 150; 0]).
  apply perm_swap.
Defined.

(** X8 -- a successful ranking returns a rank within (0, 1], no lower
    than the table entry of index [len(peers)]; the rank is 1 exactly when
    no peer has a footprint strictly between 0 and the signer's, so the
    sealer with the lowest recorded footprint always gets the full
    rank. *)
Theorem rank_bounds :
  forall (wp wp' : RaceRankComputation) (footprint : Z) (peers : list Z)
         (rank : BigRat.Rat) (peerCount : nat),
    tableOK wp ->
    CalculateRanking wp footprint peers = Some (Ok (rank, peerCount), wp') ->
    (0 < rank)%Q /\ (rank <= 1)%Q
    /\ (rankTable (length peers) <= rank)%Q
    /\ ((rank == 1)%Q
        <-> Forall (fun p => p <= 0 \/ footprint <= p) peers).
Proof.
  intros wp wp' footprint peers rank peerCount Hwp Hrun.
  destruct (CalculateRanking_outcome wp footprint peers Hwp) as [w [_ E]].
  rewrite Hrun in E.
  destruct (footprint <=? 0); [discriminate |].
  destruct (Nat.eqb (length peers) 0); [discriminate |].
  injection E as -> _ _.
  split; [apply rankEntry_positive |].
  split; [apply (rankEntry_antitone 0); lia |].
  split.
  { rewrite <- rankEntry_power.
    apply rankEntry_antitone, betterPeers_at_most. }
  rewrite rankEntry_one. unfold betterPeers.
  rewrite length_zero_iff_nil. split.
  - intros Hnil. apply Forall_forall. intros p Hp.
    destruct (Z.ltb_spec 0 p); [| now left].
    destruct (Z.ltb_spec p footprint); [| now right].
    assert (Hin : In p (filter (fun p => (0 <? p) && (p <? footprint)) peers)).
    { apply filter_In. split; [exact Hp |].
      apply andb_true_iff. split; [now apply Z.ltb_lt | now apply Z.ltb_lt]. }
    rewrite Hnil in Hin. destruct Hin.
  - intros Hall.
    destruct (filter (fun p => (0 <? p) && (p <? footprint)) peers)
      as [| p l] eqn:E; [reflexivity |]. exfalso.
    assert (Hin : In p (filter (fun p => (0 <? p) && (p <? footprint)) peers))
      by (rewrite E; now left).
    apply filter_In in Hin as [Hp Htest].
    apply andb_true_iff in Htest as [H0 H1].
    apply Z.ltb_lt in H0. apply Z.ltb_lt in H1.
    rewrite Forall_forall in Hall. destruct (Hall p Hp); lia.
Qed.

Lemma rank_bounds_witness :
  (0 < 9 # 10)%Q /\ (9 # 10 <= 1)%Q
  /\ (rankTable (length [50; 100; 150; 0]) <= 9 # 10)%Q
  /\ ((9 # 10 == 1)%Q
      <-> Forall (fun p => p <= 0 \/ 100 <= p) [50; 100; 150; 0]).
Proof.
  apply (rank_bounds NewRaceRankComputation
           (mkRace [BigRat.NewRat 1 1; 9 # 10]) 100 [50; 100; 150; 0]
           (9 # 10) 4%nat).
  - exists 0%nat. reflexivity.
  - reflexivity.
Defined.

(** ** Rank table: growth and memoisation *)

Section RankCache.

Lemma extendRanking_app (n : nat) (previous : BigRat.Rat)
    (arr : list BigRat.Rat) :
  exists tail,
    extendRanking n previous arr = arr ++ tail /\ length tail = n.
Proof.
  revert previous arr. induction n as [| n IH]; intros previous arr.
  - exists []. split; [now rewrite app_nil_r | reflexivity].
  - cbn [extendRanking].
    destruct (IH (BigRat.Mul previous (BigRat.NewRat 9 10))
                 (arr ++ [BigRat.Mul previous (BigRat.NewRat 9 10)]))
      as [tail [-> Hlen]].
    exists (BigRat.Mul previous (BigRat.NewRat 9 10) :: tail).
    split; [now rewrite <- app_assoc | simpl; now rewrite Hlen].
Qed.

(** Shape of the table after [getRanking]: the old table followed by the
    entries that were missing. *)
Lemma getRanking_shape (wp : RaceRankComputation) (k : nat) :
  rankArray wp <> [] ->
  exists r tail,
    getRanking wp k = Some (r, mkRace (rankArray wp ++ tail))
    /\ length tail = (k + 1 - length (rankArray wp))%nat
    /\ nth_error (rankArray wp ++ tail) k = Some r.
Proof.
  intros Hne. unfold getRanking.
  destruct (nth_error (rankArray wp) (length (rankArray wp) - 1))
    as [previous |] eqn:Elast.
  2: { apply nth_error_None in Elast.
       destruct (rankArray wp); [congruence | simpl in Elast; lia]. }
  destruct (extendRanking_app (k + 1 - length (rankArray wp)) previous
              (rankArray wp)) as [tail [-> Hlen]].
  destruct (nth_error (rankArray wp ++ tail) k) as [r |] eqn:Ek.
  - exists r, tail. repeat split; assumption.
  - apply nth_error_None in Ek. rewrite length_app in Ek. lia.
Qed.

Lemma getRanking_hit (wp : RaceRankComputation) (k : nat) (r : BigRat.Rat) :
  nth_error (rankArray wp) k = Some r -> getRanking wp k = Some (r, wp).
Proof.
  intros Hk.
  assert (Hlt : (k < length (rankArray wp))%nat)
    by (apply nth_error_Some; congruence).
  unfold getRanking.
  destruct (nth_error (rankArray wp) (length (rankArray wp) - 1))
    as [previous |] eqn:Elast.
  2: { apply nth_error_None in Elast. lia. }
  replace (k + 1 - length (rankArray wp))%nat with O by lia.
  cbn [extendRanking]. rewrite Hk. destruct wp. reflexivity.
Qed.

End RankCache.



(** X10 -- the table is a pure cache: from any well-formed table
    [getRanking] returns the value a fresh table would return, namely
    (9/10)^rank, and asking again for the same index answers from the
    table without changing it. *)
Theorem getRanking_memoised :
  forall (wp : RaceRankComputation) (k : nat),
    tableOK wp ->
    exists r wp' fresh,
      getRanking wp k = Some (r, wp')
      /\ tableOK wp'
      /\ getRanking NewRaceRankComputation k = Some (r, fresh)
      /\ getRanking wp' k = Some (r, wp')
      /\ (r == rankTable k)%Q.
Proof.
  intros wp k Hwp.
  destruct (getRanking_table wp k Hwp) as (wp' & Hrun & Hwp').
  destruct (getRanking_table NewRaceRankComputation k
              NewRaceRankComputation_table) as (fresh & Hfresh & _).
  exists (rankEntry k), wp', fresh.
  split; [exact Hrun |]. split; [exact Hwp' |]. split; [exact Hfresh |].
  split; [| apply rankEntry_power].
  apply getRanking_hit.
  destruct Hwp as [n Hn].
  destruct (getRanking_shape wp k) as (r & tail & Hrun' & _ & Hnth).
  { rewrite Hn. discriminate. }
  rewrite Hrun in Hrun'. injection Hrun' as <- ->. exact Hnth.
Qed.

Lemma getRanking_memoised_witness :
  exists r wp' fresh,
    getRanking (mkRace [BigRat.NewRat 1 1; 9 # 10]) 3 = Some (r, wp')
    /\ tableOK wp'
    /\ getRanking NewRaceRankComputation 3 = Some (r, fresh)
    /\ getRanking wp' 3 = Some (r, wp')
    /\ (r == rankTable 3)%Q.
Proof.
  apply (getRanking_memoised (mkRace [BigRat.NewRat 1 1; 9 # 10]) 3).
  exists 1%nat. reflexivity.
Defined.

(** X11 -- each entry of the rank table is the previous one multiplied by
    9/10, hence strictly smaller: one more better-placed peer always
    costs a tenth of the rank. *)
Theorem getRanking_geometric :
  forall (wp : RaceRankComputation) (k : nat),
    tableOK wp ->
    exists r0 r1 wp1 wp2,
      getRanking wp k = Some (r0, wp1)
      /\ getRanking wp1 (S k) = Some (r1, wp2)
      /\ (r1 == r0 * (9 # 10))%Q
      /\ (r1 < r0)%Q.
Proof.
  intros wp k Hwp.
  destruct (getRanking_table wp k Hwp) as (wp1 & H0 & Hwp1).
  destruct (getRanking_table wp1 (S k) Hwp1) as (wp2 & H1 & _).
  exists (rankEntry k), (rankEntry (S k)), wp1, wp2.
  split; [exact H0 |]. split; [exact H1 |].
  split; [apply rankEntry_succ |].
  rewrite rankEntry_succ. pose proof (rankEntry_positive k). lra.
Qed.

Lemma getRanking_geometric_witness :
  exists r0 r1 wp1 wp2,
    getRanking NewRaceRankComputation 2 = Some (r0, wp1)
    /\ getRanking wp1 3 = Some (r1, wp2)
    /\ (r1 == r0 * (9 # 10))%Q
    /\ (r1 < r0)%Q.
Proof.
  apply (getRanking_geometric NewRaceRankComputation 2).
  exists 0%nat. reflexivity.
Defined.

(** ** Inflation control and reward: order *)

Section RewardOrder.

Lemma inflation_factor_positive_supply (M : Z) :
  0 < M ->
  CalculateGlobalInflationControlFactor M
  = Ok (Qred (/ truncatedSeries (inflationExponent M)))
  /\ (0 < / truncatedSeries (inflationExponent M))%Q
  /\ (/ truncatedSeries (inflationExponent M) < 1)%Q.
Proof.
  intros HM. rewrite inflation_factor_value.
  destruct (Z.ltb_spec M 0); [lia |].
  destruct (Z.eqb_spec M 0); [lia |].
  split; [reflexivity |].
  pose proof (series_above_1 _ (inflationExponent_positive M HM)) as S.
  split.
  - apply Qinv_lt_0_compat. lra.
  - apply Qlt_shift_inv_r; lra.
Qed.

Lemma inflation_factor_antitone (M1 M2 : Z) :
  0 <= M1 -> M1 <= M2 ->
  exists c1 c2,
    CalculateGlobalInflationControlFactor M1 = Ok c1
    /\ CalculateGlobalInflationControlFactor M2 = Ok c2
    /\ (0 < c2)%Q /\ (c2 <= c1)%Q /\ (c1 <= 1)%Q.
Proof.
  intros H1 H12.
  destruct (Z.eq_dec M2 0) as [E2 | E2].
  { assert (M1 = 0) by lia. subst. exists 1%Q, 1%Q.
    repeat split; try reflexivity; discriminate. }
  destruct (inflation_factor_positive_supply M2 ltac:(lia))
    as (R2 & P2 & L2).
  destruct (Z.eq_dec M1 0) as [E1 | E1].
  { subst. exists 1%Q. eexists. split; [reflexivity |].
    split; [exact R2 |]. rewrite Qred_correct.
    split; [exact P2 |]. split; [now apply Qlt_le_weak | discriminate]. }
  destruct (inflation_factor_positive_supply M1 ltac:(lia))
    as (R1 & P1 & L1).
  do 2 eexists. split; [exact R1 |]. split; [exact R2 |].
  rewrite !Qred_correct.
  split; [exact P2 |]. split; [| now apply Qlt_le_weak].
  destruct (Z.eq_dec M1 M2) as [-> | Hne]; [apply Qle_refl |].
  apply Qlt_le_weak.
  pose proof (inflationExponent_positive M1 ltac:(lia)) as E.
  pose proof (inflationExponent_increasing M1 M2 ltac:(lia)) as I.
  pose proof (series_above_1 _ E) as S1.
  pose proof (series_increasing _ _ (Qlt_le_weak _ _ E) I) as S12.
  apply -> Qinv_lt_contravar; [exact S12 | lra | lra].
Qed.

Lemma scaled_rank_monotone (r1 r2 n1 n2 c1 c2 unit : Q) :
  (0 <= r1)%Q -> (r1 <= r2)%Q -> (0 <= n1)%Q -> (n1 <= n2)%Q ->
  (0 <= c1)%Q -> (c1 <= c2)%Q -> (0 <= unit)%Q ->
  (r1 * unit * n1 * c1 <= r2 * unit * n2 * c2)%Q.
Proof.
  intros Hr Hr12 Hn Hn12 Hc Hc12 Hu.
  apply Qmult_le_compat_nonneg; [| split; assumption].
  split.
  - repeat apply Qmult_le_0_compat; assumption.
  - apply Qmult_le_compat_nonneg; [| split; assumption].
    split; [apply Qmult_le_0_compat; assumption |].
    apply Qmult_le_compat_nonneg; split;
      assumption || apply Qle_refl.
Qed.

Lemma inject_Z_CTCUnit_nonneg : (0 <= inject_Z CTCUnit)%Q.
Proof. vm_compute. discriminate. Qed.

(** The clamped value is monotone in the scaled rank. *)
Lemma clamped_floor_monotone (x y : Q) :
  (x <= y)%Q ->
  Qfloor (Qmax x minCreationPerBlock) <= Qfloor (Qmax y minCreationPerBlock).
Proof. intros H. apply Qfloor_resp_le, Q.max_le_compat_r, H. Qed.

End RewardOrder.



(** X13 -- for a given rank and peer count the reward never grows with
    the supply already minted. *)
Theorem reward_antitone_in_supply :
  forall (rank : BigRat.Rat) (N M1 M2 u1 u2 : Z),
    (0 <= rank)%Q -> 0 <= N -> 0 <= M1 -> M1 <= M2 ->
    CalculateCarbonFootprintReward rank N M1 = Ok u1 ->
    CalculateCarbonFootprintReward rank N M2 = Ok u2 ->
    u2 <= u1.
Proof.
  intros rank N M1 M2 u1 u2 Hr HN H1 H12 R1 R2.
  destruct (inflation_factor_antitone M1 M2 H1 H12)
    as (c1 & c2 & C1 & C2 & P2 & L21 & _).
  rewrite reward_value, C1 in R1. rewrite reward_value, C2 in R2.
  injection R1 as <-. injection R2 as <-.
  apply clamped_floor_monotone.
  apply scaled_rank_monotone;
    try apply Qle_refl; try assumption.
  - now apply inject_Z_nonneg.
  - now apply Qlt_le_weak.
  - apply inject_Z_CTCUnit_nonneg.
Qed.

Lemma reward_antitone_in_supply_witness :
  3349911275792397398 <= 3600000000000000000.
Proof.
  apply (reward_antitone_in_supply (9 # 10) 4 0 (10 ^ 24));
    vm_compute; reflexivity || discriminate.
Defined.

(** X14 -- for a given supply the reward never shrinks when the rank or
    the number of peers grows. *)
Theorem reward_monotone_in_rank_and_peers :
  forall (r1 r2 : BigRat.Rat) (N1 N2 M u1 u2 : Z),
    (0 <= r1)%Q -> (r1 <= r2)%Q -> 0 <= N1 -> N1 <= N2 ->
    CalculateCarbonFootprintReward r1 N1 M = Ok u1 ->
    CalculateCarbonFootprintReward r2 N2 M = Ok u2 ->
    u1 <= u2.
Proof.
  intros r1 r2 N1 N2 M u1 u2 Hr Hr12 HN HN12 R1 R2.
  rewrite reward_value in R1, R2.
  destruct (Z.lt_ge_cases M 0) as [Hneg | Hpos].
  { destruct (reward_negative_supply r1 N1 M Hneg) as [E _].
    rewrite E in R1. discriminate. }
  destruct (inflation_factor_antitone M M Hpos (Z.le_refl M))
    as (c & c' & C & C' & P & _ & _).
  rewrite C in C'. injection C' as <-.
  rewrite C in R1, R2. injection R1 as <-. injection R2 as <-.
  apply clamped_floor_monotone.
  apply scaled_rank_monotone;
    try apply Qle_refl; try assumption.
  - now apply inject_Z_nonneg.
  - unfold Qle. simpl. lia.
  - now apply Qlt_le_weak.
  - apply inject_Z_CTCUnit_nonneg.
Qed.

Lemma reward_monotone_in_rank_and_peers_witness :
  3240000000000000000 <= 3600000000000000000.
Proof.
  apply (reward_monotone_in_rank_and_peers (81 # 100) (9 # 10) 4 4 0);
    vm_compute; reflexivity || discriminate.
Defined.

(** X15 -- a rank of at most 1 never earns more than one unit per peer,
    unless the minimum creation per block is what is paid. *)
Theorem reward_ceiling :
  forall (rank : BigRat.Rat) (N M u : Z),
    (0 <= rank)%Q -> (rank <= 1)%Q -> 0 <= N ->
    CalculateCarbonFootprintReward rank N M = Ok u ->
    u <= Z.max (N * CTCUnit) 12683916793505834.
Proof.
  intros rank N M u Hr0 Hr1 HN R.
  rewrite reward_value in R.
  destruct (Z.lt_ge_cases M 0) as [Hneg | Hpos].
  { destruct (reward_negative_supply rank N M Hneg) as [E _].
    rewrite E in R. discriminate. }
  destruct (inflation_factor_antitone 0 M (Z.le_refl 0) Hpos)
    as (c0 & c & C0 & C & P & Lc & L1).
  rewrite C in R. injection R as <-.
  assert (Hx : (rank * inject_Z CTCUnit * inject_Z N * c
                <= inject_Z (N * CTCUnit))%Q).
  { rewrite inject_Z_mult.
    setoid_replace (inject_Z N * inject_Z CTCUnit)%Q
      with (1 * inject_Z CTCUnit * inject_Z N * 1)%Q by ring.
    apply scaled_rank_monotone; try apply Qle_refl; try assumption.
    - now apply inject_Z_nonneg.
    - now apply Qlt_le_weak.
    - apply Qle_trans with c0; assumption.
    - apply inject_Z_CTCUnit_nonneg. }
  destruct (Q.max_spec (rank * inject_Z CTCUnit * inject_Z N * c)
                       minCreationPerBlock) as [[_ E] | [_ E]];
    rewrite (Qfloor_comp _ _ E).
  - rewrite minCreationPerBlock_floor. lia.
  - apply Qfloor_resp_le in Hx. rewrite Qfloor_Z in Hx. lia.
Qed.

Lemma reward_ceiling_witness :
  3600000000000000000 <= Z.max (4 * CTCUnit) 12683916793505834.
Proof.
  apply (reward_ceiling (9 # 10) 4 0);
    vm_compute; reflexivity || discriminate.
Defined.

(** ** Sealer registry: what a run changes *)

Section RegistryEffects.

Lemma removeMissingSealers_fold (signers : list address) (count : nat)
    (c : Contract) :
  removeMissingSealers signers count c
  = fold_left (removeMissingSealer signers) (seq 0 count) c.
Proof. reflexivity. Qed.

Lemma removeMissingSealers_succ (signers : list address) (n : nat)
    (c : Contract) :
  removeMissingSealers signers (S n) c
  = removeMissingSealer signers (removeMissingSealers signers n c) n.
Proof.
  rewrite !removeMissingSealers_fold, seq_S, fold_left_app. reflexivity.
Qed.

(** The registry after the first loop, slot by slot and flag by flag. *)
Lemma removeMissingSealers_effect (signers : list address) (n : nat)
    (c : Contract) :
  (forall j,
      sealerAt (fst (removeMissingSealers signers n c)) j
      = if (j <? n)%nat && negb (contains signers (sealerAt (fst c) j))
        then zeroAddress else sealerAt (fst c) j)
  /\ (forall a,
        isSealerOf (fst (removeMissingSealers signers n c)) a
        = if negb (contains signers a)
             && existsb (fun j => N.eqb (sealerAt (fst c) j) a) (seq 0 n)
          then false else isSealerOf (fst c) a).
Proof.
  induction n as [| n [IH1 IH2]].
  - split; intros; cbn; [reflexivity | now rewrite andb_false_r].
  - rewrite removeMissingSealers_succ.
    set (cn := removeMissingSealers signers n c) in *.
    unfold removeMissingSealer.
    assert (Hs : sealerAt (fst cn) n = sealerAt (fst c) n).
    { rewrite IH1, Nat.ltb_irrefl. reflexivity. }
    rewrite Hs.
    destruct (contains signers (sealerAt (fst c) n)) eqn:Hc; cbn [negb].
    + split.
      * intros j. rewrite IH1.
        destruct (Nat.eq_dec j n) as [-> | Hne].
        -- rewrite Hc, Nat.ltb_irrefl. cbn [negb andb].
           now rewrite andb_false_r.
        -- replace (j <? S n)%nat with (j <? n)%nat; [reflexivity |].
           destruct (Nat.ltb_spec j n), (Nat.ltb_spec j (S n)); lia.
      * intros a. rewrite IH2, seq_S, existsb_app. cbn [existsb Nat.add].
        destruct (N.eqb_spec (sealerAt (fst c) n) a) as [<- | Hne].
        -- rewrite Hc. reflexivity.
        -- now rewrite !orb_false_r.
    + destruct cn as [r w]. cbn [fst setIsSealerOf setSealerAt sealerAt
                                 isSealerOf] in *.
      split.
      * intros j.
        destruct (Nat.eqb_spec j n) as [-> | Hne].
        -- rewrite Hc. destruct (Nat.ltb_spec n (S n)); [reflexivity | lia].
        -- rewrite IH1.
           replace (j <? S n)%nat with (j <? n)%nat; [reflexivity |].
           destruct (Nat.ltb_spec j n), (Nat.ltb_spec j (S n)); lia.
      * intros a. rewrite seq_S, existsb_app. cbn [existsb Nat.add].
        destruct (N.eqb_spec a (sealerAt (fst c) n)) as [-> | Hne].
        -- rewrite Hc, N.eqb_refl, orb_true_r. reflexivity.
        -- rewrite IH2.
           destruct (N.eqb_spec (sealerAt (fst c) n) a); [congruence |].
           now rewrite !orb_false_r.
Qed.

(** What the second loop leaves alone. *)
Lemma replicate_loop_frame (l : list address) (k : nat) (c : Contract) :
  (forall j, (k + length l <= j)%nat ->
     sealerAt (fst (fold_left replicateSigner (combine (seq k (length l)) l) c))
              j
     = sealerAt (fst c) j)
  /\ (forall a, ~ In a l ->
        isSealerOf
          (fst (fold_left replicateSigner (combine (seq k (length l)) l) c)) a
        = isSealerOf (fst c) a).
Proof.
  revert k c. induction l as [| x l IH]; intros k c.
  - split; reflexivity.
  - cbn [length seq combine fold_left].
    destruct (IH (S k) (replicateSigner c (k, x))) as [I1 I2].
    split.
    + intros j Hj. rewrite I1 by (simpl in Hj; lia).
      unfold replicateSigner. destruct c as [r w]. cbn [fst].
      destruct (negb (N.eqb (sealerAt r k) x)), (negb (isSealerOf r x));
        cbn; try reflexivity;
        destruct (Nat.eqb_spec j k); try reflexivity; simpl in Hj; lia.
    + intros a Ha. rewrite I2 by (intros H; apply Ha; now right).
      assert (a <> x) by (intros ->; apply Ha; now left).
      unfold replicateSigner. destruct c as [r w]. cbn [fst].
      destruct (negb (N.eqb (sealerAt r k) x)), (negb (isSealerOf r x));
        cbn; try reflexivity;
        destruct (N.eqb_spec a x); congruence.
Qed.

Lemma contains_false (array : list address) (value : address) :
  contains array value = false <-> ~ In value array.
Proof.
  rewrite <- contains_In. destruct (contains array value); split;
    congruence || (intros H; exfalso; now apply H).
Qed.

(** Log growth. *)
Lemma writesFrom_trans (a b c : Contract) :
  writesFrom a b -> writesFrom b c -> writesFrom a c.
Proof.
  unfold writesFrom. intros [-> | H1] [-> | H2]; auto. right. lia.
Qed.

Lemma writesFrom_setSealerAt (c : Contract) (i : nat) (a : address) :
  writesFrom c (setSealerAt i a c).
Proof.
  destruct c as [r w]. right. cbn. rewrite length_app. simpl. lia.
Qed.

Lemma writesFrom_setIsSealerOf (c : Contract) (a : address) (e : bool) :
  writesFrom c (setIsSealerOf a e c).
Proof.
  destruct c as [r w]. right. cbn. rewrite length_app. simpl. lia.
Qed.

Lemma writesFrom_setNbNodes (c : Contract) (n : nat) :
  writesFrom c (setNbNodes n c).
Proof.
  destruct c as [r w]. right. cbn. rewrite length_app. simpl. lia.
Qed.

Lemma writesFrom_fold {B : Type} (f : Contract -> B -> Contract)
    (l : list B) (c : Contract) :
  (forall c x, writesFrom c (f c x)) -> writesFrom c (fold_left f l c).
Proof.
  intros Hf. revert c. induction l as [| x l IH]; intros c; simpl.
  - now left.
  - eapply writesFrom_trans; [apply Hf | apply IH].
Qed.

Lemma removeMissingSealer_writes (signers : list address) (c : Contract)
    (i : nat) :
  writesFrom c (removeMissingSealer signers c i).
Proof.
  unfold removeMissingSealer.
  destruct (negb (contains signers (sealerAt (fst c) i))); [| now left].
  eapply writesFrom_trans;
    [apply writesFrom_setIsSealerOf | apply writesFrom_setSealerAt].
Qed.

Lemma replicateSigner_writes (c : Contract) (entry : nat * address) :
  writesFrom c (replicateSigner c entry).
Proof.
  destruct entry as [i signer]. unfold replicateSigner.
  destruct (negb (N.eqb (sealerAt (fst c) i) signer)),
           (negb (isSealerOf (fst c) signer));
    try (now left);
    try apply writesFrom_setSealerAt; try apply writesFrom_setIsSealerOf.
  eapply writesFrom_trans;
    [apply writesFrom_setSealerAt | apply writesFrom_setIsSealerOf].
Qed.

Lemma synchronizeSealers_writes (registry : Registry)
    (signers : list address) :
  writesFrom (registry, []) (snd (synchronizeSealers (Ok signers) registry)).
Proof.
  unfold synchronizeSealers. cbn zeta. cbn [snd fst].
  eapply writesFrom_trans;
    [apply (writesFrom_fold (removeMissingSealer signers)),
       removeMissingSealer_writes |].
  rewrite <- removeMissingSealers_fold.
  eapply writesFrom_trans;
    [apply (writesFrom_fold replicateSigner), replicateSigner_writes |].
  fold (replicateSigners signers
          (removeMissingSealers signers (nbNodes registry) (registry, []))).
  destruct (negb (Nat.eqb (nbNodes registry) (length signers)));
    [apply writesFrom_setNbNodes | now left].
Qed.

End RegistryEffects.

(** X16 -- a run of the synchronisation issues no storage write exactly
    when the registry already mirrors the signer list (every slot, every
    enabled flag and the count). *)
Theorem synchronize_writes_only_when_needed :
  forall (registry : Registry) (signers : list address),
    snd (snd (synchronizeSealers (Ok signers) registry)) = []
    <-> registrySynced registry signers.
Proof.
  intros registry signers. split.
  - intros Hlog.
    pose proof (synchronizeSealers_synced registry signers) as Hsync.
    destruct (synchronizeSealers_writes registry signers) as [E | Hgrow].
    + rewrite E in Hsync. exact Hsync.
    + rewrite Hlog in Hgrow. simpl in Hgrow. lia.
  - intros Hsync. now rewrite (synchronizeSealers_noop _ _ Hsync).
Qed.

(** X17 -- the registry left by a run, in full.  The count is the number
    of signers.  Slot [j] holds signer [j] when there is one; beyond the
    signer list, a slot below the old count whose sealer left is cleared
    to the zero address and any other slot is untouched (so a stale copy
    of a current signer stays where it was).  An address is enabled when
    it is a signer, disabled when it left a slot below the old count, and
    keeps its flag otherwise. *)
Theorem synchronize_postcondition :
  forall (registry : Registry) (signers : list address),
    let after := fst (snd (synchronizeSealers (Ok signers) registry)) in
    nbNodes after = length signers
    /\ (forall j,
          sealerAt after j
          = match nth_error signers j with
            | Some s => s
            | None =>
                if (j <? nbNodes registry)%nat
                   && negb (contains signers (sealerAt registry j))
                then zeroAddress else sealerAt registry j
            end)
    /\ (forall a,
          isSealerOf after a
          = if contains signers a then true
            else if existsb (fun j => N.eqb (sealerAt registry j) a)
                            (seq 0 (nbNodes registry))
                 then false else isSealerOf registry a).
Proof.
  intros registry signers after.
  destruct (synchronizeSealers_synced registry signers)
    as (Hnb & Hslot & Hon). fold after in Hnb, Hslot, Hon.
  split; [exact Hnb |].
  set (c1 := removeMissingSealers signers (nbNodes registry) (registry, [])).
  destruct (removeMissingSealers_effect signers (nbNodes registry)
              (registry, [])) as [P1 P2]. fold c1 in P1, P2.
  destruct (replicate_loop_frame signers 0 c1) as [F1 F2].
  fold (replicateSigners signers c1) in F1, F2.
  assert (Hafter : sealerAt after = sealerAt (fst (replicateSigners signers c1))
                   /\ isSealerOf after
                      = isSealerOf (fst (replicateSigners signers c1))).
  { unfold after, synchronizeSealers. cbn zeta. cbn [fst snd]. fold c1.
    destruct (negb (Nat.eqb (nbNodes registry) (length signers)));
      [| split; reflexivity].
    destruct (replicateSigners signers c1) as [r w]. split; reflexivity. }
  destruct Hafter as [Es Ei].
  split.
  - intros j. destruct (nth_error signers j) as [s |] eqn:Ej.
    + exact (Hslot j s Ej).
    + apply nth_error_None in Ej.
      rewrite Es, F1 by lia. rewrite P1. reflexivity.
  - intros a. destruct (contains signers a) eqn:Hc.
    + apply Hon, contains_In, Hc.
    + rewrite Ei, F2 by (apply contains_false, Hc).
      rewrite P2, Hc. reflexivity.
Qed.

(** ** Ranking of the block author *)

Section AuthorRanking.

Lemma collectFootprints_effect (ctx : BlockContext) (author : address)
    (signers : list address) :
  collectFootprints ctx author signers
  = (readableFootprints ctx signers,
     if existsb (fun s => N.eqb s author) signers
     then match contractFootprint ctx author with
          | Ok (f, block) =>
              Some (calcCarbonFootprintAuditIncentive f block
                      (headerNumber ctx))
          | Err _ => None
          end
     else None).
Proof.
  unfold collectFootprints, readableFootprints.
  enough (G : forall all0 fp0,
    fold_left
      (fun acc signerAddress =>
         match contractFootprint ctx signerAddress with
         | Err _ => acc
         | Ok (f, block) =>
             let f := calcCarbonFootprintAuditIncentive f block
                        (headerNumber ctx) in
             (fst acc ++ [f],
              if N.eqb signerAddress author then Some f else snd acc)
         end) signers (all0, fp0)
    = (all0 ++ flat_map
                 (fun s =>
                    match contractFootprint ctx s with
                    | Ok (f, block) =>
                        [calcCarbonFootprintAuditIncentive f block
                           (headerNumber ctx)]
                    | Err _ => []
                    end) signers,
       match contractFootprint ctx author with
       | Ok (f, block) =>
           if existsb (fun s => N.eqb s author) signers
           then Some (calcCarbonFootprintAuditIncentive f block
                        (headerNumber ctx))
           else fp0
       | Err _ => fp0
       end)).
  { rewrite G. cbn [app]. f_equal.
    destruct (contractFootprint ctx author) as [[f block] | e];
      destruct (existsb (fun s => N.eqb s author) signers); reflexivity. }
  induction signers as [| s signers IH]; intros all0 fp0.
  - cbn. rewrite app_nil_r.
    destruct (contractFootprint ctx author) as [[f block] | e]; reflexivity.
  - cbn [fold_left flat_map existsb].
    destruct (N.eqb_spec s author) as [-> | Hne].
    + destruct (contractFootprint ctx author) as [[f block] | e].
      * rewrite IH. cbn [fst snd orb]. rewrite <- app_assoc. f_equal.
        destruct (existsb (fun s => N.eqb s author) signers); reflexivity.
      * rewrite IH. reflexivity.
    + destruct (contractFootprint ctx s) as [[f block] | e].
      * rewrite IH. cbn [fst snd orb]. rewrite <- app_assoc. reflexivity.
      * rewrite IH. reflexivity.
Qed.

Lemma existsb_author_In (author : address) (signers : list address) :
  existsb (fun s => N.eqb s author) signers = true <-> In author signers.
Proof. exact (contains_In signers author). Qed.


Lemma readableFootprints_author (ctx : BlockContext) (author : address)
    (signers : list address) (f block : Z) :
  In author signers ->
  contractFootprint ctx author = Ok (f, block) ->
  In (calcCarbonFootprintAuditIncentive f block (headerNumber ctx))
     (readableFootprints ctx signers).
Proof.
  intros Hin Hread. unfold readableFootprints. apply in_flat_map.
  exists author. split; [exact Hin |]. rewrite Hread. now left.
Qed.

(** The ranking of the author, evaluated. *)
Lemma calcCarbonFootprintRanking_value (ctx : BlockContext)
    (wp : RaceRankComputation) (author : address) (state : StateDB) :
  tableOK wp ->
  exists wp',
    tableOK wp'
    /\ calcCarbonFootprintRanking ctx wp author state
       = Some
           (match getSigners ctx with
            | Err e => rankingFailure e
            | Ok signers =>
                match contractFootprint ctx author with
                | Err _ => rankingFailure ErrNoSealerFootprint
                | Ok (f, block) =>
                    let fp := calcCarbonFootprintAuditIncentive f block
                                (headerNumber ctx) in
                    if negb (existsb (fun s => N.eqb s author) signers)
                    then rankingFailure ErrNoSealerFootprint
                    else if fp =? 0
                    then rankingFailure ErrNoSealerFootprint
                    else if fp <? 0
                    then rankingFailure ErrZeroOrNegativeFootprint
                    else
                      mkRanking (Some fp)
                        (Some (rankEntry
                                 (betterPeers fp
                                    (readableFootprints ctx signers))))
                        (length (readableFootprints ctx signers))
                        (Some (getTotalCryptoBalance state)) None
                end
            end,
            wp').
Proof.
  intros Hwp. unfold calcCarbonFootprintRanking.
  destruct (getSigners ctx) as [signers | e];
    [| exists wp; split; [assumption | reflexivity]].
  rewrite collectFootprints_effect.
  destruct (existsb (fun s => N.eqb s author) signers) eqn:Hin; cbn [negb].
  2: { exists wp. split; [assumption |].
       destruct (contractFootprint ctx author) as [[f block] | e];
         reflexivity. }
  destruct (contractFootprint ctx author) as [[f block] | e] eqn:Hread;
    [| exists wp; split; [assumption | reflexivity]].
  cbv zeta.
  set (fp := calcCarbonFootprintAuditIncentive f block (headerNumber ctx)).
  unfold BigInt.Cmp, zero.
  destruct (Z.compare_spec fp 0) as [E | E | E].
  - rewrite E. exists wp. split; [assumption | reflexivity].
  - destruct (Z.eqb_spec fp 0); [lia |].
    destruct (Z.ltb_spec fp 0); [| lia].
    cbn [Z.eqb].
    destruct (CalculateRanking_outcome wp fp
                (readableFootprints ctx signers) Hwp) as [wp' [Hwp' ->]].
    destruct (Z.leb_spec fp 0); [| lia].
    exists wp'. split; [assumption | reflexivity].
  - destruct (Z.eqb_spec fp 0); [lia |].
    destruct (Z.ltb_spec fp 0); [lia |].
    cbn [Z.eqb].
    destruct (CalculateRanking_outcome wp fp
                (readableFootprints ctx signers) Hwp) as [wp' [Hwp' ->]].
    destruct (Z.leb_spec fp 0); [lia |].
    assert (Hne : Nat.eqb (length (readableFootprints ctx signers)) 0 = false).
    { apply Nat.eqb_neq. intros Hz. apply length_zero_iff_nil in Hz.
      pose proof (readableFootprints_author ctx author signers f block
                    (proj1 (existsb_author_In _ _) Hin) Hread) as Hmem.
      rewrite Hz in Hmem. destruct Hmem. }
    rewrite Hne. exists wp'. split; [assumption | reflexivity].
Qed.

End AuthorRanking.

Section AuthorRankingFacts.

Lemma auditIncentive_positive (f lastBlock currentBlock : Z) :
  0 < calcCarbonFootprintAuditIncentive f lastBlock currentBlock <-> 0 < f.
Proof.
  split.
  - intros Hpen. destruct (Z.leb_spec f 0) as [Hf | Hf]; [| exact Hf].
    rewrite auditIncentive_value in Hpen.
    destruct (Z.leb_spec f 0); [| lia].
    rewrite orb_true_r in Hpen. lia.
  - intros Hf. pose proof (auditIncentive_at_least f lastBlock currentBlock).
    lia.
Qed.

End AuthorRankingFacts.





(** ** Block post-processing: balances, registry, fallbacks *)

Section ProcessedBlock.

Lemma settleEarnings_balance (author : address) (blockReward : Z)
    (rank : BigRat.Rat) (txs : list Transaction) (state : StateDB)
    (a : address) :
  0 <= blockReward ->
  balance (settleEarnings author blockReward rank txs state) a
  = if N.eqb a author
    then balance state a + blockReward
         + fst (calcCarbonFootprintTxFee rank txs)
    else balance state a.
Proof.
  intros Hreward. unfold settleEarnings.
  destruct (calcCarbonFootprintTxFee rank txs) as [feeAdjustment burnt].
  cbn [fst snd]. unfold BigInt.Sign, BigInt.Neg, BigInt.Abs.
  set (s1 := if Z.sgn blockReward >? 0 then _ else state).
  assert (H1 : balance s1 a
               = if N.eqb a author then balance state a + blockReward
                 else balance state a).
  { unfold s1. destruct blockReward as [| p | p];
      cbn [Z.sgn Z.gtb Z.compare]; [| reflexivity | lia].
    destruct (N.eqb a author); lia. }
  set (s2 := if Z.sgn feeAdjustment =? 1 then _ else _).
  assert (H2 : balance s2 a
               = if N.eqb a author then balance s1 a + feeAdjustment
                 else balance s1 a).
  { unfold s2. destruct feeAdjustment as [| p | p];
      cbn [Z.sgn Z.eqb Pos.eqb].
    - destruct (N.eqb a author); lia.
    - reflexivity.
    - cbn. destruct (N.eqb a author); [| reflexivity].
      change (Z.neg p) with (- Z.pos p). lia. }
  assert (H3 : forall s v, balance (snd (addTotalCryptoBalance s v)) a
                           = balance s a) by reflexivity.
  destruct (negb (Z.sgn burnt =? 0)); rewrite ?H3, H2, H1;
    destruct (N.eqb a author); reflexivity.
Qed.

Lemma settleEarnings_registry (author : address) (blockReward : Z)
    (rank : BigRat.Rat) (txs : list Transaction) (state : StateDB) :
  registry (settleEarnings author blockReward rank txs state)
  = registry state.
Proof.
  unfold settleEarnings.
  destruct (calcCarbonFootprintTxFee rank txs) as [feeAdjustment burnt].
  destruct (BigInt.Sign blockReward >? 0), (BigInt.Sign feeAdjustment =? 1),
           (BigInt.Sign feeAdjustment =? -1), (negb (BigInt.Sign burnt =? 0));
    reflexivity.
Qed.

(** A block that is not skipped: what is credited and what is left. *)
Lemma blockPostProcessing_processed (ctx : BlockContext)
    (wp : RaceRankComputation) (state : StateDB) (txs : list Transaction)
    (newBlock : bool) (author : address) :
  tableOK wp ->
  0 < headerNumber ctx ->
  blockAuthor ctx newBlock = Ok author ->
  exists rk wp' blockReward rank,
    calcCarbonFootprintRanking ctx wp author state = Some (rk, wp')
    /\ tableOK wp'
    /\ (((exists e, rk = rankingFailure e)
         /\ blockReward = 0 /\ rank = BigRat.NewRat 0 1)
        \/ (exists fp k N,
              rk = mkRanking (Some fp) (Some (rankEntry k)) N
                             (Some (getTotalCryptoBalance state)) None
              /\ rank = rankEntry k
              /\ blockReward
                 = match CalculateCarbonFootprintReward (rankEntry k)
                           (Z.of_nat N) (getTotalCryptoBalance state) with
                   | Ok r => r
                   | Err _ => 0
                   end))
    /\ 0 <= blockReward
    /\ (0 <= rank)%Q /\ (rank <= 1)%Q
    /\ blockPostProcessing ctx wp state txs newBlock
       = Some
           (let settled := settleEarnings author blockReward rank txs state in
            mkState (balance settled) (sessionVariables settled)
                    (fst (snd (synchronizeSealers (getSigners ctx)
                                                  (registry settled)))),
            wp').
Proof.
  intros Hwp Hnum Hauthor. unfold blockPostProcessing.
  destruct (Z.leb_spec (headerNumber ctx) 0); [lia |].
  unfold blockAuthor in Hauthor. rewrite Hauthor.
  destruct (calcCarbonFootprintRanking_outcome ctx wp author state Hwp)
    as (rk & wp' & Hrk & Hwp' & [[e ->] | (fp & k & N & ->)]).
  - exists (rankingFailure e), wp', 0, (BigRat.NewRat 0 1).
    rewrite Hrk. split; [reflexivity |]. split; [assumption |].
    split; [left; split; [now eexists | split; reflexivity] |].
    split; [lia |]. split; [discriminate |]. split; [discriminate |].
    cbn [rankingFailure rk_err rk_rank]. cbv zeta.
    destruct (synchronizeSealers _ _) as [res [reg w]]. reflexivity.
  - set (total := getTotalCryptoBalance state) in *.
    exists (mkRanking (Some fp) (Some (rankEntry k)) N (Some total) None),
           wp',
           (match CalculateCarbonFootprintReward (rankEntry k) (Z.of_nat N)
                    total with
            | Ok r => r
            | Err _ => 0
            end),
           (rankEntry k).
    rewrite Hrk. split; [reflexivity |]. split; [assumption |].
    split; [right; exists fp, k, N; repeat split |].
    split.
    { destruct (Z.lt_ge_cases total 0) as [Hn | Hp].
      - destruct (reward_negative_supply (rankEntry k) (Z.of_nat N) _ Hn)
          as [_ ->]. lia.
      - destruct (reward_at_least_minimum (rankEntry k) (Z.of_nat N) _ Hp)
          as (c & u & _ & -> & _ & _ & Hmin).
        rewrite minCreationPerBlock_floor in Hmin. lia. }
    split; [apply Qlt_le_weak, rankEntry_positive |].
    split; [apply rankEntry_at_most_1 |].
    cbn [rk_err rk_rank rk_totalCrypto rk_nbNodes]. cbv zeta.
    unfold calcCarbonFootprintReward.
    destruct (CalculateCarbonFootprintReward (rankEntry k) (Z.of_nat N) total);
      destruct (synchronizeSealers _ _) as [res [reg w]]; reflexivity.
Qed.


End ProcessedBlock.

Section ProcessedBlockFacts.

Lemma fee_adjustment_range (rank : BigRat.Rat) (txs : list Transaction) :
  (0 <= rank)%Q -> (rank <= 1)%Q -> 0 <= feesTransferred txs ->
  - feesTransferred txs <= fst (calcCarbonFootprintTxFee rank txs) <= 0.
Proof.
  intros Hr0 Hr1 HF. rewrite fee_adjustment_value. cbn [fst].
  pose proof (inject_Z_nonneg _ HF) as HF'.
  assert (H0 : 0 <= Qfloor (inject_Z (feesTransferred txs) * rank)).
  { change 0 with (Qfloor 0). apply Qfloor_resp_le.
    apply Qmult_le_0_compat; assumption. }
  assert (H1 : Qfloor (inject_Z (feesTransferred txs) * rank)
               <= feesTransferred txs).
  { rewrite <- (Qfloor_Z (feesTransferred txs)) at 2.
    apply Qfloor_resp_le.
    rewrite <- (Qmult_1_r (inject_Z (feesTransferred txs))) at 2.
    apply Qmult_le_left; assumption. }
  lia.
Qed.

Lemma calcCarbonFootprintRanking_success (ctx : BlockContext)
    (wp : RaceRankComputation) (author : address) (state : StateDB)
    (signers : list address) (f block : Z) :
  tableOK wp ->
  getSigners ctx = Ok signers ->
  In author signers ->
  contractFootprint ctx author = Ok (f, block) ->
  0 < f ->
  exists fp k N wp',
    calcCarbonFootprintRanking ctx wp author state
    = Some (mkRanking (Some fp) (Some (rankEntry k)) N
                      (Some (getTotalCryptoBalance state)) None, wp').
Proof.
  intros Hwp Hs Hin Hread Hf.
  destruct (calcCarbonFootprintRanking_value ctx wp author state Hwp)
    as (wp' & _ & Hrun).
  rewrite Hs, Hread in Hrun. cbv zeta in Hrun.
  rewrite (proj2 (existsb_author_In author signers) Hin) in Hrun.
  cbn [negb] in Hrun.
  pose proof (proj2 (auditIncentive_positive f block (headerNumber ctx)) Hf)
    as Hfp.
  set (fp := calcCarbonFootprintAuditIncentive f block (headerNumber ctx))
    in *.
  destruct (Z.eqb_spec fp 0); [lia |].
  destruct (Z.ltb_spec fp 0); [lia |].
  do 4 eexists. exact Hrun.
Qed.

End ProcessedBlockFacts.

(** X20 -- the genesis block and any header with a number that is not
    positive are skipped, and so is an imported block whose sealer cannot
    be recovered: the state and the rank table are left as they are. *)
Theorem post_processing_skips :
  forall (ctx : BlockContext) (wp : RaceRankComputation) (state : StateDB)
         (txs : list Transaction) (newBlock : bool),
    headerNumber ctx <= 0 \/ (exists e, blockAuthor ctx newBlock = Err e) ->
    blockPostProcessing ctx wp state txs newBlock = Some (state, wp).
Proof.
  intros ctx wp state txs newBlock Hskip. unfold blockPostProcessing.
  destruct (Z.leb_spec (headerNumber ctx) 0); [reflexivity |].
  destruct Hskip as [Hnum | [e He]]; [lia |].
  unfold blockAuthor in He. now rewrite He.
Qed.

Lemma post_processing_skips_witness :
  blockPostProcessing (mkContext 0 1%N (Ok 1%N) (Ok [1%N])
                                 (fun _ => Ok (100, 0)))
                      NewRaceRankComputation emptyState [mkTx 10 5] true
  = Some (emptyState, NewRaceRankComputation).
Proof.
  apply (post_processing_skips
           (mkContext 0 1%N (Ok 1%N) (Ok [1%N]) (fun _ => Ok (100, 0)))).
  left. simpl. lia.
Defined.



(** X22 -- every processed block ends with the registry synchronised,
    whether or not a reward was earned: when the signer list is available
    the registry mirrors it afterwards, and when it is not the registry is
    left as it was. *)
Theorem post_processing_registry :
  forall (ctx : BlockContext) (wp : RaceRankComputation) (state : StateDB)
         (txs : list Transaction) (newBlock : bool) (author : address),
    tableOK wp ->
    0 < headerNumber ctx ->
    blockAuthor ctx newBlock = Ok author ->
    exists state' wp',
      blockPostProcessing ctx wp state txs newBlock = Some (state', wp')
      /\ match getSigners ctx with
         | Ok signers => registrySynced (registry state') signers
         | Err _ => registry state' = registry state
         end.
Proof.
  intros ctx wp state txs newBlock author Hwp Hnum Hauthor.
  destruct (blockPostProcessing_processed ctx wp state txs newBlock author
              Hwp Hnum Hauthor)
    as (rk & wp' & R & rank & _ & _ & _ & _ & _ & _ & Hrun).
  cbv zeta in Hrun. eexists. exists wp'. split; [exact Hrun |].
  cbn [registry]. rewrite settleEarnings_registry.
  destruct (getSigners ctx) as [signers | e].
  - apply synchronizeSealers_synced.
  - reflexivity.
Qed.

Lemma post_processing_registry_witness :
  exists state' wp',
    blockPostProcessing (singleSignerBlock 0) NewRaceRankComputation
                        emptyState [mkTx 10 5] true
    = Some (state', wp')
    /\ match getSigners (singleSignerBlock 0) with
       | Ok signers => registrySynced (registry state') signers
       | Err _ => registry state' = registry emptyState
       end.
Proof.
  apply (post_processing_registry (singleSignerBlock 0)
           NewRaceRankComputation emptyState [mkTx 10 5] true 1%N).
  - exists 0%nat. reflexivity.
  - reflexivity.
  - reflexivity.
Defined.





(** X25 -- a signer with a positive recorded footprint that seals a block
    while the counter is not negative gains at least the minimum creation
    per block, less at most the fees it received. *)
Theorem post_processing_minimum_gain :
  forall (ctx : BlockContext) (wp : RaceRankComputation) (state : StateDB)
         (txs : list Transaction) (newBlock : bool) (author : address)
         (signers : list address) (f block : Z),
    tableOK wp ->
    0 < headerNumber ctx ->
    blockAuthor ctx newBlock = Ok author ->
    getSigners ctx = Ok signers ->
    In author signers ->
    contractFootprint ctx author = Ok (f, block) ->
    0 < f ->
    0 <= getTotalCryptoBalance state ->
    0 <= feesTransferred txs ->
    exists state' wp',
      blockPostProcessing ctx wp state txs newBlock = Some (state', wp')
      /\ 12683916793505834 - feesTransferred txs
         <= balance state' author - balance state author.
Proof.
  intros ctx wp state txs newBlock author signers f block
         Hwp Hnum Hauthor Hs Hin Hread Hf Htotal HF.
  destruct (blockPostProcessing_processed ctx wp state txs newBlock author
              Hwp Hnum Hauthor)
    as (rk & wp' & R & rank & Hrk & _ & Hcase & HR & Hr0 & Hr1 & Hrun).
  destruct (calcCarbonFootprintRanking_success ctx wp author state signers
              f block Hwp Hs Hin Hread Hf)
    as (fp & k & N & w & Hok).
  rewrite Hok in Hrk. injection Hrk as <- <-.
  destruct Hcase as [([e Hbad] & _) | (fp' & k' & N' & Hrk & -> & ->)];
    [discriminate |].
  destruct (reward_at_least_minimum (rankEntry k') (Z.of_nat N') _ Htotal)
    as (c & u & _ & Hu & _ & _ & Hmin).
  rewrite Hu in *. rewrite minCreationPerBlock_floor in Hmin.
  pose proof (fee_adjustment_range (rankEntry k') txs Hr0 Hr1 HF) as Hadj.
  cbv zeta in Hrun. eexists. exists w. split; [exact Hrun |].
  cbn [balance]. rewrite settleEarnings_balance by exact HR.
  rewrite N.eqb_refl. lia.
Qed.

Lemma post_processing_minimum_gain_witness :
  exists state' wp',
    blockPostProcessing (singleSignerBlock 100) NewRaceRankComputation
                        emptyState [mkTx 10 5] true
    = Some (state', wp')
    /\ 12683916793505834 - feesTransferred [mkTx 10 5]
       <= balance state' 1%N - balance emptyState 1%N.
Proof.
  apply (post_processing_minimum_gain (singleSignerBlock 100)
           NewRaceRankComputation emptyState [mkTx 10 5] true 1%N
           [1%N] 100 0).
  - exists 0%nat. reflexivity.
  - reflexivity.
  - reflexivity.
  - reflexivity.
  - now left.
  - reflexivity.
  - reflexivity.
  - vm_compute. discriminate.
  - vm_compute. discriminate.
Defined.



(** X27 -- the node that seals a block and the nodes that import it
    compute the same state: when the sealer recovered from the header is
    the signing identity of the producer, the post-processing of the new
    block and that of the imported block coincide. *)
Theorem post_processing_producer_importer_agree :
  forall (ctx : BlockContext) (wp : RaceRankComputation) (state : StateDB)
         (txs : list Transaction),
    headerAuthor ctx = Ok (engineSigner ctx) ->
    blockPostProcessing ctx wp state txs true
    = blockPostProcessing ctx wp state txs false.
Proof.
  intros ctx wp state txs Hauthor. unfold blockPostProcessing.
  rewrite Hauthor. reflexivity.
Qed.

Lemma post_processing_producer_importer_agree_witness :
  blockPostProcessing (singleSignerBlock 100) NewRaceRankComputation
                      emptyState [mkTx 10 5] true
  = blockPostProcessing (singleSignerBlock 100) NewRaceRankComputation
                        emptyState [mkTx 10 5] false.
Proof.
  apply (post_processing_producer_importer_agree (singleSignerBlock 100)).
  reflexivity.
Defined.

(** ** The earlier reward scheme *)

Section EarlierScheme.

Lemma RatSign_le_0 (q : Q) :
  (CliquePcr.RatSign q <=? 0) = true <-> (q <= 0)%Q.
Proof.
  unfold CliquePcr.RatSign, Qle. cbn [Qnum Qden]. rewrite Z.leb_le.
  rewrite Z.mul_1_r, Z.mul_0_l.
  destruct (Qnum q); simpl; split; lia.
Qed.

Lemma Inv_nonzero (q : Q) :
  ~ (q == 0)%Q -> CliquePcr.Inv q = Some (BigRat.Inv q).
Proof.
  intros Hq. unfold CliquePcr.Inv.
  destruct (Z.eqb_spec (Qnum q) 0) as [E | E]; [| reflexivity].
  exfalso. apply Hq. unfold Qeq. cbn [Qnum Qden]. rewrite E. reflexivity.
Qed.

Lemma inject_Z_positive (z : Z) : 0 < z -> (0 < inject_Z z)%Q.
Proof. intros Hz. unfold Qlt. cbn [Qnum Qden inject_Z]. lia. Qed.

(** The ratio [1 / (X + 0,2) - 0,5], [X = F * N / T], over a common
    denominator. *)
Lemma earlier_ratio (N T F : Q) :
  (0 < N)%Q -> (0 < T)%Q -> (0 < F)%Q ->
  (/ (/ (T / N) * F + (2 # 10)) - (5 # 10)
   == (9 * T - 5 * F * N) / (2 * (5 * F * N + T)))%Q.
Proof.
  intros HN HT HF.
  assert (HFN : (0 < F * N)%Q) by nra.
  field. repeat split; try lra; try nra.
Qed.

Lemma earlier_quotient_antitone (a1 a2 b1 b2 : Z) :
  0 <= a2 -> a2 <= a1 -> 0 < b1 -> b1 <= b2 -> a2 / b2 <= a1 / b1.
Proof.
  intros Ha2 Ha Hb1 Hb.
  apply Z.le_trans with (a2 / b1).
  - apply Z.div_le_compat_l; lia.
  - apply Z.div_le_mono; lia.
Qed.

(** The earlier reward in closed form, over the integers. *)
Lemma earlier_reward_value (n t f : Z) :
  0 < n -> 0 < t -> 0 < f ->
  CliquePcr.CalculateCarbonFootprintReward n t f
  = CliquePcr.Value
      (if 9 * t <=? 5 * f * n then 0
       else Z.min (2 * CTCUnit)
                  (CTCUnit * (9 * t - 5 * f * n) / (2 * (5 * f * n + t)))).
Proof.
  intros Hn Ht Hf.
  pose proof (inject_Z_positive n Hn) as HN.
  pose proof (inject_Z_positive t Ht) as HT.
  pose proof (inject_Z_positive f Hf) as HF.
  unfold CliquePcr.CalculateCarbonFootprintReward, BigInt.Cmp, zero.
  destruct (Z.compare_spec n 0); try lia.
  destruct (Z.compare_spec t 0); try lia.
  destruct (Z.compare_spec f 0); try lia.
  cbn [Z.eqb Z.leb Z.compare]. cbv zeta.
  assert (Havg : (0 < inject_Z t / inject_Z n)%Q)
    by (apply Qlt_shift_div_l; [assumption | lra]).
  rewrite Inv_nonzero
    by (unfold BigRat.SetFrac; rewrite Qred_correct; lra).
  set (x := BigRat.Add _ (BigRat.NewRat 2 10)).
  assert (Hx : (x == / (inject_Z t / inject_Z n) * inject_Z f + (2 # 10))%Q).
  { unfold x, BigRat.Add, BigRat.Mul, BigRat.Inv, BigRat.SetFrac,
      BigRat.SetInt, BigRat.NewRat.
    rewrite !Qred_correct. reflexivity. }
  assert (Hxpos : (0 < x)%Q).
  { rewrite Hx.
    assert ((0 < / (inject_Z t / inject_Z n))%Q)
      by now apply Qinv_lt_0_compat.
    assert ((0 < / (inject_Z t / inject_Z n) * inject_Z f)%Q)
      by now apply Qmult_lt_0_compat.
    lra. }
  rewrite Inv_nonzero by lra.
  set (ratio := BigRat.Sub _ (BigRat.NewRat 5 10)).
  set (num := 9 * t - 5 * f * n). set (den := 2 * (5 * f * n + t)).
  assert (Hden : 0 < den) by (unfold den; nia).
  assert (Hratio : (ratio == inject_Z num / inject_Z den)%Q).
  { unfold ratio, BigRat.Sub, BigRat.Inv, BigRat.NewRat.
    rewrite !Qred_correct, Hx.
    change (inject_Z 5 / inject_Z 10)%Q with (5 # 10)%Q.
    rewrite (earlier_ratio _ _ _ HN HT HF).
    unfold num, den, Z.sub.
    rewrite !inject_Z_mult, !inject_Z_plus, inject_Z_opp, !inject_Z_mult.
    reflexivity. }
  pose proof (inject_Z_positive den Hden) as HD.
  assert (Hsign : (ratio <= 0)%Q <-> num <= 0).
  { rewrite Hratio. split.
    - intros Hle. destruct (Z.le_gt_cases num 0) as [| Hpos]; [assumption |].
      exfalso. apply (Qlt_not_le _ _ (Qlt_shift_div_l _ _ _ HD
                                        ltac:(rewrite Qmult_0_l;
                                              apply inject_Z_positive, Hpos))).
      exact Hle.
    - intros Hle. apply Qle_shift_div_r; [assumption |].
      rewrite Qmult_0_l. unfold Qle. cbn [Qnum Qden inject_Z]. lia. }
  destruct (CliquePcr.RatSign ratio <=? 0) eqn:Es.
  - apply RatSign_le_0, Hsign in Es.
    destruct (Z.leb_spec (9 * t) (5 * f * n)); [reflexivity |].
    unfold num in Es. lia.
  - assert (Hnum : 0 < num).
    { destruct (Z.le_gt_cases num 0) as [Hle |]; [| assumption].
      apply Hsign, RatSign_le_0 in Hle. congruence. }
    destruct (Z.leb_spec (9 * t) (5 * f * n)); [unfold num in Hnum; lia |].
    set (reward := BigRat.Mul _ ratio).
    assert (Hreward : (reward == inject_Z (CTCUnit * num) / inject_Z den)%Q).
    { unfold reward, BigRat.Mul, BigRat.SetInt.
      rewrite Qred_correct, Hratio, inject_Z_mult. field. lra. }
    assert (HI : CliquePcr.Quo (BigRat.Num reward) (BigRat.Denom reward)
                 = CTCUnit * num / den).
    { change (CliquePcr.Quo (BigRat.Num reward) (BigRat.Denom reward))
        with (truncateRat reward).
      rewrite truncateRat_floor.
      - rewrite (Qfloor_comp _ _ Hreward). symmetry. apply Zdiv_Qdiv.
      - rewrite Hreward. apply Qle_shift_div_l; [assumption |].
        rewrite Qmult_0_l. apply inject_Z_nonneg.
        assert (0 < CTCUnit) by reflexivity. nia. }
    rewrite HI.
    destruct (Z.compare_spec (CTCUnit * num / den) (2 * CTCUnit));
      cbn [Z.gtb Z.compare]; f_equal; lia.
Qed.

End EarlierScheme.

(** X28 -- the earlier scheme pays, for a positive number of nodes, total
    footprint [t] and footprint [f]: nothing when the footprint is at
    least 1.8 times the average ([9 t <= 5 f n]), and otherwise
    [UNIT * (9 t - 5 f n) / (2 (5 f n + t))] capped at 2 units; it fails
    on a total or a footprint that is not positive and never panics. *)
Theorem earlier_reward_closed_form :
  forall n t f : Z,
    0 < n ->
    CliquePcr.CalculateCarbonFootprintReward n t f
    = if t <=? 0 then CliquePcr.Failure CliquePcr.ErrTotalFootprint
      else if f <=? 0 then CliquePcr.Failure CliquePcr.ErrFootprint
      else
        CliquePcr.Value
          (if 9 * t <=? 5 * f * n then 0
           else Z.min (2 * CTCUnit)
                      (CTCUnit * (9 * t - 5 * f * n)
                       / (2 * (5 * f * n + t)))).
Proof.
  intros n t f Hn.
  destruct (Z.leb_spec t 0) as [Ht | Ht].
  { unfold CliquePcr.CalculateCarbonFootprintReward, BigInt.Cmp, zero.
    destruct (Z.compare_spec n 0), (Z.compare_spec t 0);
      try lia; reflexivity. }
  destruct (Z.leb_spec f 0) as [Hf | Hf].
  { unfold CliquePcr.CalculateCarbonFootprintReward, BigInt.Cmp, zero.
    destruct (Z.compare_spec n 0), (Z.compare_spec t 0),
             (Z.compare_spec f 0); try lia; reflexivity. }
  now apply earlier_reward_value.
Qed.

Lemma earlier_reward_closed_form_witness :
  CliquePcr.CalculateCarbonFootprintReward 4 400 100
  = if 400 <=? 0 then CliquePcr.Failure CliquePcr.ErrTotalFootprint
    else if 100 <=? 0 then CliquePcr.Failure CliquePcr.ErrFootprint
    else
      CliquePcr.Value
        (if 9 * 400 <=? 5 * 100 * 4 then 0
         else Z.min (2 * CTCUnit)
                    (CTCUnit * (9 * 400 - 5 * 100 * 4)
                     / (2 * (5 * 100 * 4 + 400)))).
Proof.
  apply (earlier_reward_closed_form 4 400 100). reflexivity.
Defined.

(** X29 -- in the earlier scheme the reward lies between 0 and 2 units
    and never grows with the footprint: among the same nodes a larger
    footprint never earns more. *)
Theorem earlier_reward_antitone :
  forall n t f1 f2 r1 r2 : Z,
    0 < n -> 0 < t -> 0 < f1 -> f1 <= f2 ->
    CliquePcr.CalculateCarbonFootprintReward n t f1 = CliquePcr.Value r1 ->
    CliquePcr.CalculateCarbonFootprintReward n t f2 = CliquePcr.Value r2 ->
    0 <= r2 /\ r2 <= r1 /\ r1 <= 2 * CTCUnit.
Proof.
  intros n t f1 f2 r1 r2 Hn Ht Hf1 Hf R1 R2.
  assert (Hinj : forall a b : Z, CliquePcr.Value a = CliquePcr.Value b -> a = b)
    by (intros a b H; congruence).
  rewrite earlier_reward_value in R1, R2 by lia.
  apply Hinj in R1, R2. subst r1 r2.
  assert (HU : 0 < CTCUnit) by reflexivity.
  assert (Hfn : f1 * n <= f2 * n) by nia.
  destruct (Z.leb_spec (9 * t) (5 * f2 * n)) as [H2 | H2].
  - destruct (Z.leb_spec (9 * t) (5 * f1 * n)); [lia |].
    split; [lia |]. split; [| apply Z.le_min_l].
    apply Z.min_glb; [lia |]. apply Z.div_pos; nia.
  - destruct (Z.leb_spec (9 * t) (5 * f1 * n)); [lia |].
    split; [apply Z.min_glb; [lia | apply Z.div_pos; nia] |].
    split; [| apply Z.le_min_l].
    apply Z.min_le_compat_l.
    apply earlier_quotient_antitone; nia.
Qed.

Lemma earlier_reward_antitone_witness :
  0 <= 0 /\ 0 <= 333333333333333333
  /\ 333333333333333333 <= 2 * CTCUnit.
Proof.
  apply (earlier_reward_antitone 4 400 100 180);
    vm_compute; reflexivity || discriminate.
Defined.

Section EarlierInflation.

Lemma shiftLeftOne_value (s : Z) :
  0 <= s ->
  CliquePcr.shiftLeftOne s
  = if s <? 63 then 2 ^ s else if s =? 63 then - 2 ^ 63 else 0.
Proof.
  intros Hs. unfold CliquePcr.shiftLeftOne.
  destruct (Z.ltb_spec s 63) as [Hlt | Hge].
  - assert (0 < 2 ^ s) by (apply Z.pow_pos_nonneg; lia).
    assert (2 ^ s < 2 ^ 63) by (apply Z.pow_lt_mono_r; lia).
    rewrite Z.mod_small; [lia |].
    change (2 ^ 64) with (2 * 2 ^ 63). lia.
  - destruct (Z.eqb_spec s 63) as [-> | Hne]; [reflexivity |].
    replace s with ((s - 64) + 64) by lia.
    rewrite Z.pow_add_r by lia.
    rewrite Z.add_comm, Z.mod_add by discriminate. reflexivity.
Qed.

End EarlierInflation.

(** X30 -- the earlier inflation control halves the factor for each full
    80 000 000 units minted, [L] times: it is [1 / 2^L] while [L < 63];
    at [L = 63] the 64-bit shift turns negative and the factor is
    [- 1 / 2^63]; from [L = 64] on the shift gives 0 and so does the
    factor. *)
Theorem earlier_inflation_halving :
  forall M : Z,
    0 <= M ->
    M / (80000000 * CTCUnit) < 2 ^ 64 ->
    let L := M / (80000000 * CTCUnit) in
    (CliquePcr.CalculateGlobalInflationControlFactor M
     == if L <? 63 then 1 / inject_Z (2 ^ L)
        else if L =? 63 then - (1 / inject_Z (2 ^ 63))
        else 0)%Q.
Proof.
  intros M HM Hbound L.
  unfold CliquePcr.CalculateGlobalInflationControlFactor, BigInt.Cmp, zero.
  destruct (Z.compare_spec M 0) as [E | E | E]; try lia.
  { subst M. reflexivity. }
  cbn [Z.eqb]. cbv zeta.
  change (8000000 * 30 / 3) with 80000000.
  assert (HC : 0 < 80000000 * CTCUnit) by reflexivity.
  set (C := 80000000 * CTCUnit) in *.
  assert (HL : 0 <= L) by (apply Z.div_pos; lia).
  assert (Hquo : CliquePcr.Quo (BigRat.Num (BigRat.SetFrac M C))
                               (BigRat.Denom (BigRat.SetFrac M C)) = L).
  { change (CliquePcr.Quo (BigRat.Num (BigRat.SetFrac M C))
                          (BigRat.Denom (BigRat.SetFrac M C)))
      with (truncateRat (BigRat.SetFrac M C)).
    unfold BigRat.SetFrac. rewrite truncateRat_floor.
    - rewrite Qfloor_Qred. symmetry. apply Zdiv_Qdiv.
    - rewrite Qred_correct. apply Qle_shift_div_l.
      + apply inject_Z_positive, HC.
      + rewrite Qmult_0_l. apply inject_Z_nonneg. lia. }
  rewrite Hquo.
  assert (HU : CliquePcr.Uint64 L = L).
  { unfold CliquePcr.Uint64. rewrite Z.abs_eq by exact HL.
    apply Z.mod_small. fold L in Hbound. lia. }
  rewrite HU, (shiftLeftOne_value L HL).
  destruct (Z.ltb_spec L 63) as [Hlt | Hge].
  - assert (Hpow : 0 < 2 ^ L) by (apply Z.pow_pos_nonneg; lia).
    destruct (Z.eqb_spec (2 ^ L) 0); [lia |].
    unfold BigRat.NewRat. apply Qred_correct.
  - destruct (Z.eqb_spec L 63) as [E63 | Hne].
    + change (- 2 ^ 63 =? 0) with false. cbv iota.
      unfold BigRat.NewRat. rewrite Qred_correct.
      vm_compute. reflexivity.
    + reflexivity.
Qed.

Lemma earlier_inflation_halving_witness :
  (CliquePcr.CalculateGlobalInflationControlFactor
     (63 * (80000000 * CTCUnit))
   == if 63 * (80000000 * CTCUnit) / (80000000 * CTCUnit) <? 63
      then 1 / inject_Z
                 (2 ^ (63 * (80000000 * CTCUnit) / (80000000 * CTCUnit)))
      else if 63 * (80000000 * CTCUnit) / (80000000 * CTCUnit) =? 63
           then - (1 / inject_Z (2 ^ 63))
           else 0)%Q.
Proof.
  apply (earlier_inflation_halving (63 * (80000000 * CTCUnit)));
    vm_compute; reflexivity || discriminate.
Defined.
